(** * web/server.js: the bot supervisor of the web panel

    A shallow embedding of [web/server.js].  The module keeps two
    module-level variables, [bots] (the running bots, keyed by account name)
    and [configsArray] (the account list), and reacts to three kinds of
    input: HTTP requests, events emitted by the bot objects it built, and
    the completion of the file-system calls it started.

    Conventions of the embedding.
    - [bots] is a plain object: its own properties are a finite map keyed by
      strings, and a read [bots[name]] that finds no own property goes on to
      [Object.prototype], so for a name such as "constructor" it gives an
      inherited value, which is truthy and is not a bot ([property]).  The
      keys of [bot.messageReceived] are renderings of Steam identifiers.
    - Bot objects are shared and mutable: the registry and the closures of the
      event handlers hold references to them.  The model keeps every bot ever
      built in a store ([heap]); a reference is an index into that store.
    - Everything the module sends to the outside (log lines, socket.io
      messages, commands given to a bot, file-system requests) is appended to
      the output trace [out], oldest first.
    - The body of a handler runs to completion before the next input is
      taken.  An [async] route is one reaction: what follows its [await]
      neither reads nor writes [bots].
    - A function either completes normally or throws; [M] is the
      corresponding state-and-exception monad.  The bot objects come from
      [src/hourBooster], which is not part of this file; server.js provides an
      exception path for one of their methods only, [logOff], and the outcome
      of that call is an input of the model ([logOff_throws]).  The other
      commands are recorded in the trace and return.  The rejection of the
      promises that server.js guards with [.catch] is an input as well. *)

From Stdlib Require Import ZArith String List Lia.
From stdpp Require Import base option list strings gmap fin_maps pretty.

Open Scope string_scope.
Open Scope list_scope.

(** ** Data *)

(** An entry of [gamesAndStatus]: an application id or a custom title. *)
Inductive Game :=
| AppId (id : Z)
| Title (name : string).

(** An element of [configsArray], as [add-account] normalises it. *)
Module Config.
Record t := Make {
  username : string;
  password : string;
  sharedSecret : string;
  enableStatus : bool;
  gamesAndStatus : list Game;
  replyMessage : string;
  receiveMessages : bool;
  saveMessages : bool
}.
End Config.

(** A JSON request body: every field may be missing. *)
Module Body.
Record t := Make {
  username : option string;
  password : option string;
  sharedSecret : option string;
  enableStatus : option bool;
  gamesAndStatus : option (list Game);
  replyMessage : option string;
  receiveMessages : option bool;
  saveMessages : option bool
}.
End Body.

(** What server.js reads of an error object: [err.message] (when it is a
    string), [err.eresult] and its rendering in a template string. *)
Module Err.
Record t := Make {
  message : option string;
  eresult : option Z;
  toString : string
}.
End Err.

(** The fields of a bot object that server.js reads or writes. *)
Module Bot.
Record t := Make {
  username : string;
  receiveMessages : bool;
  saveMessages : bool;
  autoMessage : string;
  messageReceived : gmap string bool;
  loginKeyPath : option string;
  _waitingForGuard : bool
}.
End Bot.

(** A reference to a bot object. *)
Abbreviation handle := nat (only parsing).

(** A bot together with the [config] its event handlers have captured. *)
Record Closure := { config : Config.t; bot : Bot.t }.

(** [SteamUser.EResult.InvalidPassword] of the steam-user package. *)
Definition InvalidPassword : Z := 5.

Inductive Output :=
| Log (message : string)
| StatusUpdate
| SteamGuardRequest (username : string)
| DoLogin (h : handle)
| LogOff (h : handle)
| ChatMessage (h : handle) (steamID text : string)
| SubmitSteamGuardCode (h : handle) (code : string)
| Unlink (path : string)
| AppendMessage (username steamID message : string)
| WriteConfig (configs : list Config.t).

Record World := {
  bots : gmap string handle;
  configsArray : list Config.t;
  heap : list Closure;
  out : list Output
}.

Definition initial : World :=
  {| bots := ∅; configsArray := []; heap := []; out := [] |}.

(** The collaborators whose answers the module cannot predict. *)
Record Env := {
  (** [bot.logOff()] throws this error *)
  logOff_throws : handle -> option Err.t;
  (** [fs.unlink(path)] rejects with this error *)
  unlink_rejects : string -> option Err.t;
  (** [fs.mkdir(dir).then(() => fs.appendFile(file, ...))] rejects *)
  append_rejects : string -> string -> option Err.t;
  (** the login key file the factory attaches to a bot, if any *)
  loginKeyFile : Config.t -> option string
}.

(** ** Truthiness and template strings *)

Definition truthy (s : string) : bool :=
  match s with EmptyString => false | _ => true end.

Definition truthy_opt (o : option string) : bool :=
  match o with Some s => truthy s | None => false end.

(** [`${e.message}`] *)
Definition show_message (e : Err.t) : string :=
  default "undefined" (Err.message e).

(** [haystack.includes(needle)] *)
Fixpoint includes (needle haystack : string) : bool :=
  String.prefix needle haystack ||
  match haystack with
  | EmptyString => false
  | String _ rest => includes needle rest
  end.

(** ** The monad *)

Inductive Completion (A : Type) :=
| Normal (a : A)
| Throw (e : Err.t).
Arguments Normal {A} a.
Arguments Throw {A} e.

Definition M (A : Type) : Type := World -> Completion A * World.

Definition ret {A} (a : A) : M A := fun w => (Normal a, w).

Definition bind {A B} (m : M A) (k : A -> M B) : M B :=
  fun w =>
    match m w with
    | (Normal a, w') => k a w'
    | (Throw e, w') => (Throw e, w')
    end.

Definition throw {A} (e : Err.t) : M A := fun w => (Throw e, w).

(** [try { body } catch (e) { handler(e) } finally { final }] for a body
    that returns nothing. *)
Definition try_catch_finally (body : M unit) (handler : Err.t -> M unit)
    (final : M unit) : M unit :=
  fun w =>
    match body w with
    | (Normal _, w1) => final w1
    | (Throw e, w1) =>
        match handler e w1 with
        | (Normal _, w2) => final w2
        | (Throw e', w2) =>
            match final w2 with
            | (Normal _, w3) => (Throw e', w3)
            | (Throw e'', w3) => (Throw e'', w3)
            end
        end
    end.

Definition get : M World := fun w => (Normal w, w).

Declare Scope js_scope.
Delimit Scope js_scope with js.
Notation "'let*' x := m 'in' k" := (bind m (fun x => k))
  (at level 10, x name, m at level 100, k at level 200) : js_scope.
Notation "m ;; k" := (bind m (fun _ => k))
  (at level 100, k at level 200, right associativity) : js_scope.
Open Scope js_scope.

Definition when (b : bool) (m : M unit) : M unit :=
  if b then m else ret tt.

(** Final state and completion of a computation. *)
Definition exec {A} (m : M A) (w : World) : World := snd (m w).
Definition completion {A} (m : M A) (w : World) : Completion A := fst (m w).

(** ** Primitive operations on the module state *)

Definition emit (o : Output) : M unit :=
  fun w => (Normal tt,
            {| bots := bots w; configsArray := configsArray w;
               heap := heap w; out := out w ++ [o] |}).

Definition set_bots (f : gmap string handle -> gmap string handle) : M unit :=
  fun w => (Normal tt,
            {| bots := f (bots w); configsArray := configsArray w;
               heap := heap w; out := out w |}).

Definition set_configsArray (f : list Config.t -> list Config.t) : M unit :=
  fun w => (Normal tt,
            {| bots := bots w; configsArray := f (configsArray w);
               heap := heap w; out := out w |}).

Definition set_heap (f : list Closure -> list Closure) : M unit :=
  fun w => (Normal tt,
            {| bots := bots w; configsArray := configsArray w;
               heap := f (heap w); out := out w |}).

(** The names of the properties of [Object.prototype]. *)
Definition Object_prototype : list string :=
  ["constructor"; "__defineGetter__"; "__defineSetter__"; "hasOwnProperty";
   "__lookupGetter__"; "__lookupSetter__"; "isPrototypeOf";
   "propertyIsEnumerable"; "toString"; "valueOf"; "__proto__";
   "toLocaleString"].

Definition inherited (name : string) : bool :=
  bool_decide (name ∈ Object_prototype).

(** The value of a property of [bots] that is not [undefined]: a bot that
    was stored, or what every object inherits under that name. *)
Inductive Slot :=
| Own (h : handle)
| Inherited.

(** [registry[name]]: the own property if there is one, then the prototype;
    [None] is [undefined].  Every value but [undefined] is truthy. *)
Definition property (registry : gmap string handle) (name : string)
    : option Slot :=
  match registry !! name with
  | Some h => Some (Own h)
  | None => if inherited name then Some Inherited else None
  end.

(** [bots[username]] *)
Definition running (username : string) : M (option Slot) :=
  fun w => (Normal (property (bots w) username), w).

(** Allocation of a bot object; the result is the reference to it. *)
Definition new (c : Closure) : M handle :=
  fun w => (Normal (length (heap w)),
            {| bots := bots w; configsArray := configsArray w;
               heap := heap w ++ [c]; out := out w |}).

Definition deref (h : handle) : M (option Closure) :=
  fun w => (Normal (heap w !! h), w).

Definition update_bot (h : handle) (f : Bot.t -> Bot.t) : M unit :=
  set_heap (fun hp =>
    match hp !! h with
    | Some c => <[h := {| config := config c; bot := f (bot c) |}]> hp
    | None => hp
    end).

(** [writeLog(message)]: the line goes to the log file and to the
    observers; the time stamp is left out.  The function is [async] and
    catches the failure of the append itself: it never throws. *)
Definition writeLog (message : string) : M unit := emit (Log message).

(** [saveConfig()]: the array is serialised when the call is made. *)
Definition saveConfig : M unit :=
  let* w := get in emit (WriteConfig (configsArray w)).

(** ** The supervisor *)

Section Supervisor.
Context (env : Env).

(** Modelled from the spec: [botFactory.buildBot] lives in
    [src/hourBooster], which is not part of this file.  The spec has the
    client built fresh from the configuration on every start, with an
    empty reply-tracking set and no challenge pending; the auto-reply text
    and the message flags are those of the configuration. *)
Definition buildBot (config : Config.t) : Bot.t :=
  {| Bot.username := Config.username config;
     Bot.receiveMessages := Config.receiveMessages config;
     Bot.saveMessages := Config.saveMessages config;
     Bot.autoMessage := Config.replyMessage config;
     Bot.messageReceived := ∅;
     Bot.loginKeyPath := loginKeyFile env config;
     Bot._waitingForGuard := false |}.

(** *** Event handlers registered by [startBot] *)

(** [bot.on('loggedOn', ...)] *)
Definition on_loggedOn (h : handle) (c : Closure) : M unit :=
  let username := Config.username (config c) in
  let* b := running username in
  when (negb (bool_decide (is_Some b))) (set_bots <[username := h]>);;
  writeLog ("[" +:+ username +:+ "] Logged in successfully. Playing games");;
  emit StatusUpdate.

Definition isLoggedInElsewhere (err : Err.t) : bool :=
  match Err.message err with
  | Some m => includes "LoggedInElsewhere" m
  | None => false
  end.

(** The guard of the [fs.unlink] call: the path to delete, if the call is
    made. *)
Definition old_login_key (c : Closure) (err : Err.t) : option string :=
  if bool_decide (Err.eresult err = Some InvalidPassword)
  then match Bot.loginKeyPath (bot c) with
       | Some path => if truthy path then Some path else None
       | None => None
       end
  else None.

(** [.catch(e => writeLog(...))] on the promise of [fs.unlink] *)
Definition unlink_settles (username path : string) : M unit :=
  match unlink_rejects env path with
  | Some e =>
      writeLog ("[" +:+ username +:+ "] Could not delete old login key: "
                +:+ show_message e)
  | None => ret tt
  end.

(** [bot.on('error', ...)], followed by the settlement of the promise it
    may have started. *)
Definition on_error (h : handle) (c : Closure) (err : Err.t) : M unit :=
  let username := Config.username (config c) in
  (if isLoggedInElsewhere err
   then writeLog ("[" +:+ username +:+
                  "] Account logged in elsewhere, attempting to reconnect.")
   else writeLog ("[" +:+ username +:+ "] Error: " +:+ Err.toString err));;
  match old_login_key c err with
  | Some path => emit (Unlink path)
  | None => ret tt
  end;;
  let* b := running username in
  when (bool_decide (is_Some b) && negb (isLoggedInElsewhere err))
    (set_bots (delete username);; emit StatusUpdate);;
  match old_login_key c err with
  | Some path => unlink_settles username path
  | None => ret tt
  end.

(** [!bot.messageReceived[steamID]] negated *)
Definition replied (b : Bot.t) (steamID : string) : bool :=
  default false (Bot.messageReceived b !! steamID).

Definition mark_replied (steamID : string) (b : Bot.t) : Bot.t :=
  {| Bot.username := Bot.username b;
     Bot.receiveMessages := Bot.receiveMessages b;
     Bot.saveMessages := Bot.saveMessages b;
     Bot.autoMessage := Bot.autoMessage b;
     Bot.messageReceived := <[steamID := true]> (Bot.messageReceived b);
     Bot.loginKeyPath := Bot.loginKeyPath b;
     Bot._waitingForGuard := Bot._waitingForGuard b |}.

(** [bot.on('friendMessage', ...)], followed by the settlement of the
    promise it may have started. *)
Definition on_friendMessage (h : handle) (c : Closure)
    (steamID message : string) : M unit :=
  let b := bot c in
  when (Bot.receiveMessages b)
    (writeLog ("[" +:+ Bot.username b +:+ "] Message from " +:+ steamID
               +:+ ": " +:+ message));;
  when (Bot.saveMessages b)
    (emit (AppendMessage (Bot.username b) steamID message));;
  when (negb (replied b steamID) && truthy (Bot.autoMessage b))
    (emit (ChatMessage h steamID (Bot.autoMessage b));;
     update_bot h (mark_replied steamID));;
  when (Bot.saveMessages b)
    match append_rejects env (Bot.username b) steamID with
    | Some err =>
        writeLog ("[" +:+ Bot.username b +:+ "] Error saving message: "
                  +:+ Err.toString err)
    | None => ret tt
    end.

(** [bot.on('steamGuardRequested', ...)] *)
Definition on_steamGuardRequested (h : handle) (c : Closure) : M unit :=
  let username := Config.username (config c) in
  emit (SteamGuardRequest username);;
  writeLog ("[" +:+ username +:+ "] Steam Guard code required.").

(** [bot.on('disconnected', ...)] *)
Definition on_disconnected (h : handle) (c : Closure)
    (eresult : Z) (msg : string) : M unit :=
  let username := Config.username (config c) in
  writeLog ("[" +:+ username +:+ "] Disconnected: " +:+ msg
            +:+ " (Result: " +:+ pretty eresult +:+ ")");;
  set_bots (delete username);;
  emit StatusUpdate.

(** *** [startBot] and [stopBot] *)

Definition startBot (config : Config.t) : M unit :=
  let username := Config.username config in
  let* b := running username in
  match b with
  | Some _ => writeLog ("[" +:+ username +:+ "] Bot is already running.")
  | None =>
      writeLog ("[" +:+ username +:+ "] Starting bot...");;
      let* h := new {| config := config; bot := buildBot config |} in
      emit (DoLogin h);;
      set_bots <[username := h]>;;
      emit StatusUpdate
  end.

(** [bot.logOff()] *)
Definition logOff (h : handle) : M unit :=
  emit (LogOff h);;
  match logOff_throws env h with
  | Some e => throw e
  | None => ret tt
  end.

(** The [TypeError] of a call of [bot.logOff] on a value that has no such
    method. *)
Definition not_a_function : Err.t :=
  {| Err.message := Some "bot.logOff is not a function";
     Err.eresult := None;
     Err.toString := "TypeError: bot.logOff is not a function" |}.

(** [bot.logOff()] on the value of [bots[username]]. *)
Definition logOff_on (bot : Slot) : M unit :=
  match bot with
  | Own h => logOff h
  | Inherited => throw not_a_function
  end.

Definition stopBot (username : string) : M unit :=
  let* b := running username in
  match b with
  | None => writeLog ("[" +:+ username +:+ "] Bot is not running.")
  | Some bot =>
      writeLog ("[" +:+ username +:+ "] Stopping bot...");;
      try_catch_finally
        (logOff_on bot)
        (fun e => writeLog ("[" +:+ username +:+ "] Error during logOff: "
                            +:+ show_message e))
        (set_bots (delete username);;
         emit StatusUpdate;;
         writeLog ("[" +:+ username +:+ "] Bot stopped."))
  end.

End Supervisor.

(** ** The HTTP routes *)

(** An element of the answer of [GET /api/accounts]. *)
Module Account.
Record t := Make {
  username : string;
  enableStatus : bool;
  gamesAndStatus : list Game;
  replyMessage : string;
  receiveMessages : bool;
  saveMessages : bool;
  running : bool
}.
End Account.

Inductive Response :=
| Json (status : nat) (message : string)
| AccountList (accounts : list Account.t).

(** What [fs.readFile] followed by [JSON.parse] gives [loadConfig]. *)
Inductive ReadResult :=
| Parsed (data : list Config.t)
| ENOENT
| Failed.

Definition has_username (username : string) (acc : Config.t) : Prop :=
  Config.username acc = username.

#[local] Instance has_username_dec username acc :
  Decision (has_username username acc) :=
  decide (Config.username acc = username).

(** [configsArray.findIndex(acc => acc.username === username)] *)
Definition findIndex (username : string) (configs : list Config.t)
    : option nat :=
  fst <$> list_find (has_username username) configs.

(** [configsArray.find(cfg => cfg.username === username)] *)
Definition find (username : string) (configs : list Config.t)
    : option Config.t :=
  snd <$> list_find (has_username username) configs.

(** [{ ...originalAccount, ...updatedData, username: originalAccount.username }] *)
Definition merge (originalAccount : Config.t) (updatedData : Body.t)
    : Config.t :=
  {| Config.username := Config.username originalAccount;
     Config.password :=
       default (Config.password originalAccount) (Body.password updatedData);
     Config.sharedSecret :=
       default (Config.sharedSecret originalAccount)
               (Body.sharedSecret updatedData);
     Config.enableStatus :=
       default (Config.enableStatus originalAccount)
               (Body.enableStatus updatedData);
     Config.gamesAndStatus :=
       default (Config.gamesAndStatus originalAccount)
               (Body.gamesAndStatus updatedData);
     Config.replyMessage :=
       default (Config.replyMessage originalAccount)
               (Body.replyMessage updatedData);
     Config.receiveMessages :=
       default (Config.receiveMessages originalAccount)
               (Body.receiveMessages updatedData);
     Config.saveMessages :=
       default (Config.saveMessages originalAccount)
               (Body.saveMessages updatedData) |}.

(** [x || ''] on an optional string *)
Definition or_empty (o : option string) : string :=
  match o with
  | Some s => s
  | None => ""
  end.

(** The defaults that [add-account] fills in. *)
Definition with_defaults (username password : string) (newAccount : Body.t)
    : Config.t :=
  {| Config.username := username;
     Config.password := password;
     Config.sharedSecret := or_empty (Body.sharedSecret newAccount);
     Config.enableStatus := default true (Body.enableStatus newAccount);
     Config.gamesAndStatus := default [] (Body.gamesAndStatus newAccount);
     Config.replyMessage := or_empty (Body.replyMessage newAccount);
     Config.receiveMessages := default false (Body.receiveMessages newAccount);
     Config.saveMessages := default false (Body.saveMessages newAccount) |}.

(** The object built for one account by [GET /api/accounts]. *)
Definition account_view (registry : gmap string handle) (config : Config.t)
    : Account.t :=
  {| Account.username := Config.username config;
     Account.enableStatus := Config.enableStatus config;
     Account.gamesAndStatus := Config.gamesAndStatus config;
     Account.replyMessage := Config.replyMessage config;
     Account.receiveMessages := Config.receiveMessages config;
     Account.saveMessages := Config.saveMessages config;
     Account.running :=
       bool_decide (is_Some (property registry (Config.username config))) |}.

(** [loadConfig()], given the outcome of reading the file. *)
Definition loadConfig (r : ReadResult) : M unit :=
  match r with
  | Parsed data => set_configsArray (fun _ => data)
  | ENOENT => set_configsArray (fun _ => []);; saveConfig
  | Failed => set_configsArray (fun _ => [])
  end.

Section Routes.
Context (env : Env).

(** [GET /api/accounts] *)
Definition get_accounts : M Response :=
  let* w := get in
  ret (AccountList (account_view (bots w) <$> configsArray w)).

(** [POST /api/start] *)
Definition post_start (username : string) : M Response :=
  let* w := get in
  match find username (configsArray w) with
  | None => ret (Json 404 "Account not found")
  | Some config =>
      match property (bots w) username with
      | Some _ => ret (Json 400 "Bot already running")
      | None =>
          startBot env config;;
          ret (Json 200 "Start command received")
      end
  end.

(** [POST /api/stop] *)
Definition post_stop (username : string) : M Response :=
  let* b := running username in
  match b with
  | None => ret (Json 400 "Bot not running")
  | Some _ =>
      stopBot env username;;
      ret (Json 200 "Stop command received")
  end.

(** [bot.submitSteamGuardCode(code)] *)
Definition submitSteamGuardCode (h : handle) (code : string) : M unit :=
  emit (SubmitSteamGuardCode h code).

Definition no_guard_pending : string :=
  "No Steam Guard request pending for this account or bot not running".

(** [POST /api/submit-guard] *)
Definition post_submit_guard (username code : string) : M Response :=
  let* w := get in
  match property (bots w) username with
  | None | Some Inherited => ret (Json 400 no_guard_pending)
  | Some (Own h) =>
      if match heap w !! h with
         | Some c => Bot._waitingForGuard (bot c)
         | None => false
         end
      then
        submitSteamGuardCode h code;;
        writeLog ("[" +:+ username +:+ "] Steam Guard code submitted.");;
        ret (Json 200 "Code submitted")
      else ret (Json 400 no_guard_pending)
  end.

(** [POST /api/add-account] *)
Definition post_add_account (newAccount : Body.t) : M Response :=
  match Body.username newAccount, Body.password newAccount with
  | Some username, Some password =>
      if truthy username && truthy password then
        let* w := get in
        if bool_decide (Exists (has_username username) (configsArray w))
        then ret (Json 409 "Account with this username already exists")
        else
          set_configsArray
            (fun l => l ++ [with_defaults username password newAccount]);;
          saveConfig;;
          writeLog ("[" +:+ username +:+ "] Account added.");;
          emit StatusUpdate;;
          ret (Json 201 "Account added successfully")
      else ret (Json 400 "Username and password are required")
  | _, _ => ret (Json 400 "Username and password are required")
  end.

(** [PUT /api/edit-account/:username] *)
Definition put_edit_account (username : string) (updatedData : Body.t)
    : M Response :=
  let* w := get in
  match list_find (has_username username) (configsArray w) with
  | None => ret (Json 404 "Account not found")
  | Some (accountIndex, originalAccount) =>
      set_configsArray <[accountIndex := merge originalAccount updatedData]>;;
      let* b := running username in
      when (bool_decide (is_Some b))
        (writeLog ("[" +:+ username +:+
           "] Account edited. Stopping the bot to apply changes. Please restart manually.");;
         stopBot env username);;
      saveConfig;;
      writeLog ("[" +:+ username +:+ "] Account updated.");;
      emit StatusUpdate;;
      ret (Json 200
        "Account updated successfully. Restart the bot if it was running.")
  end.

(** [DELETE /api/delete-account/:username] *)
Definition delete_account (username : string) : M Response :=
  let* w := get in
  match findIndex username (configsArray w) with
  | None => ret (Json 404 "Account not found")
  | Some accountIndex =>
      let* b := running username in
      when (bool_decide (is_Some b)) (stopBot env username);;
      set_configsArray (delete accountIndex);;
      saveConfig;;
      writeLog ("[" +:+ username +:+ "] Account deleted.");;
      emit StatusUpdate;;
      ret (Json 200 "Account deleted successfully")
  end.

End Routes.

(** ** The module as a reactive system *)

Inductive Event :=
| loggedOn
| error (err : Err.t)
| friendMessage (steamID message : string)
| steamGuardRequested
| disconnected (eresult : Z) (msg : string).

Inductive Request :=
| GetAccounts
| PostStart (username : string)
| PostStop (username : string)
| PostSubmitGuard (username code : string)
| PostAddAccount (newAccount : Body.t)
| PutEditAccount (username : string) (updatedData : Body.t)
| DeleteAccount (username : string).

Inductive Input :=
| Listening (r : ReadResult)
| Http (req : Request)
| Emits (h : handle) (ev : Event)
| Waiting (h : handle) (pending : bool).

Definition set_waiting (pending : bool) (b : Bot.t) : Bot.t :=
  {| Bot.username := Bot.username b;
     Bot.receiveMessages := Bot.receiveMessages b;
     Bot.saveMessages := Bot.saveMessages b;
     Bot.autoMessage := Bot.autoMessage b;
     Bot.messageReceived := Bot.messageReceived b;
     Bot.loginKeyPath := Bot.loginKeyPath b;
     Bot._waitingForGuard := pending |}.

Section System.
Context (env : Env).

Definition serve (req : Request) : M Response :=
  match req with
  | GetAccounts => get_accounts
  | PostStart username => post_start env username
  | PostStop username => post_stop env username
  | PostSubmitGuard username code => post_submit_guard username code
  | PostAddAccount newAccount => post_add_account newAccount
  | PutEditAccount username updatedData =>
      put_edit_account env username updatedData
  | DeleteAccount username => delete_account env username
  end.

(** The handler that [startBot] registered on the bot [h] for [ev]. *)
Definition dispatch (h : handle) (ev : Event) : M unit :=
  let* c := deref h in
  match c with
  | None => ret tt
  | Some c =>
      match ev with
      | loggedOn => on_loggedOn h c
      | error err => on_error env h c err
      | friendMessage steamID message =>
          on_friendMessage env h c steamID message
      | steamGuardRequested => on_steamGuardRequested h c
      | disconnected eresult msg => on_disconnected h c eresult msg
      end
  end.

(** One reaction of the module.  [Waiting h pending] is the bot [h]
    writing its own [_waitingForGuard] field: server.js only reads it. *)
Definition react (i : Input) : M unit :=
  match i with
  | Listening r => loadConfig r
  | Http req => serve req;; ret tt
  | Emits h ev => dispatch h ev
  | Waiting h pending => update_bot h (set_waiting pending)
  end.

Definition step (w : World) (i : Input) : World := exec (react i) w.

Definition run (w : World) (inputs : list Input) : World :=
  fold_left step inputs w.

Definition reachable (w : World) : Prop :=
  exists inputs, w = run initial inputs.

End System.

(** * Vocabulary of the statements *)

(** [keeps R m]: running [m] relates the state before to the state after by
    [R], whatever the completion. *)
Definition keeps (R : World -> World -> Prop) {A : Type} (m : M A) : Prop :=
  forall w, R w (exec m w).

(** ** The registry *)

Definition named (username : string) (entry : string * handle) : Prop :=
  entry.1 = username.

#[local] Instance named_dec username entry : Decision (named username entry) :=
  decide (entry.1 = username).

(** The number of registry entries kept under a name. *)
Definition sessions_of (username : string) (registry : gmap string handle)
    : nat :=
  size (filter (named username) registry).

(** The step wrote an entry under the name. *)
Definition inserted (w w' : World) (username : string) : Prop :=
  is_Some (bots w' !! username) /\ bots w' !! username <> bots w !! username.

(** Nothing is inserted in the registry and no bot is built. *)
Definition no_insert (w w' : World) : Prop :=
  (forall username,
     bots w' !! username = None \/ bots w' !! username = bots w !! username) /\
  length (heap w') = length (heap w).

(** The claim as the spec words it: only a start request inserts. *)
Definition only_start_inserts (env : Env) : Prop :=
  forall (w : World) (i : Input) (username : string),
    reachable env w ->
    inserted w (step env w i) username ->
    i = Http (PostStart username) /\ bots w !! username = None.

(** ** Traces *)

Definition already_running (username : string) : Output :=
  Log ("[" +:+ username +:+ "] Bot is already running.").

(** What [stopBot] sends out for a name that only has an inherited value,
    in order. *)
Definition stop_trace_inherited (username : string) : list Output :=
  [Log ("[" +:+ username +:+ "] Stopping bot...");
   Log ("[" +:+ username +:+ "] Error during logOff: "
        +:+ show_message not_a_function);
   StatusUpdate;
   Log ("[" +:+ username +:+ "] Bot stopped.")].

(** What [stopBot] sends out for a running bot, in order. *)
Definition stop_trace (env : Env) (username : string) (h : handle)
    : list Output :=
  [Log ("[" +:+ username +:+ "] Stopping bot..."); LogOff h] ++
  match logOff_throws env h with
  | Some e =>
      [Log ("[" +:+ username +:+ "] Error during logOff: "
            +:+ show_message e)]
  | None => []
  end ++
  [StatusUpdate; Log ("[" +:+ username +:+ "] Bot stopped.")].

(** What [stopBot] sends out when [bots[username]] is [bot]. *)
Definition stop_outputs (env : Env) (username : string) (bot : Slot)
    : list Output :=
  match bot with
  | Own h => stop_trace env username h
  | Inherited => stop_trace_inherited username
  end.

Definition is_unlink (o : Output) : bool :=
  match o with
  | Unlink _ => true
  | _ => false
  end.

(** The number of [fs.unlink] calls in a trace. *)
Definition deletion_attempts (l : list Output) : nat :=
  length (List.filter is_unlink l).

(** The claim as the spec words it: one deletion attempt for every error
    whose result code is [InvalidPassword]. *)
Definition always_one_deletion_attempt : Prop :=
  forall (env : Env) (w : World) (h : handle) (c : Closure) (err : Err.t),
    heap w !! h = Some c ->
    Err.eresult err = Some InvalidPassword ->
    deletion_attempts (out (step env w (Emits h (error err))))
    = S (deletion_attempts (out w)).

(** The environment in which [fs.unlink] never fails. *)
Definition unlink_succeeds (env : Env) : Env :=
  {| logOff_throws := logOff_throws env;
     unlink_rejects := fun _ => None;
     append_rejects := append_rejects env;
     loginKeyFile := loginKeyFile env |}.

Definition is_chat (o : Output) : bool :=
  match o with
  | ChatMessage _ _ _ => true
  | _ => false
  end.

Definition is_reply (h : handle) (steamID : string) (o : Output) : bool :=
  match o with
  | ChatMessage h' steamID' _ =>
      bool_decide (h' = h) && bool_decide (steamID' = steamID)
  | _ => false
  end.

(** The number of automatic replies the bot [h] sent to [steamID]. *)
Definition replies (h : handle) (steamID : string) (l : list Output) : nat :=
  length (List.filter (is_reply h steamID) l).
Arguments replies : simpl never.

(** No reply is sent and no bot forgets a peer. *)
Definition no_reply (w w' : World) : Prop :=
  (forall h steamID,
     replies h steamID (out w') = replies h steamID (out w)) /\
  (forall h c,
     heap w !! h = Some c ->
     exists c', heap w' !! h = Some c' /\
                Bot.messageReceived (bot c') = Bot.messageReceived (bot c)).

(** Every reply in the trace is remembered by the bot that sent it, and none
    was sent twice. *)
Definition replies_tracked (w : World) : Prop :=
  forall h steamID,
    replies h steamID (out w) = 0 \/
    (replies h steamID (out w) = 1 /\
     exists c, heap w !! h = Some c /\ replied (bot c) steamID = true).

(** ** The account list *)

(** Two configurations that differ at most in [password] and
    [sharedSecret]. *)
Definition same_public (c1 c2 : Config.t) : Prop :=
  Config.username c1 = Config.username c2 /\
  Config.enableStatus c1 = Config.enableStatus c2 /\
  Config.gamesAndStatus c1 = Config.gamesAndStatus c2 /\
  Config.replyMessage c1 = Config.replyMessage c2 /\
  Config.receiveMessages c1 = Config.receiveMessages c2 /\
  Config.saveMessages c1 = Config.saveMessages c2.

(** ** Scenarios *)

(** Nothing fails and the factory attaches no login key file. *)
Definition quiet : Env :=
  {| logOff_throws := fun _ => None;
     unlink_rejects := fun _ => None;
     append_rejects := fun _ _ => None;
     loginKeyFile := fun _ => None |}.

(** Every guarded call fails, and each bot has a login key file. *)
Definition failing : Env :=
  {| logOff_throws :=
       fun _ => Some (Err.Make (Some "closed") None "Error: closed");
     unlink_rejects :=
       fun _ => Some (Err.Make (Some "ENOENT") None "Error: ENOENT");
     append_rejects :=
       fun _ _ => Some (Err.Make (Some "EACCES") None "Error: EACCES");
     loginKeyFile := fun c => Some (Config.username c +:+ ".key") |}.

(** The body of an [add-account] request. *)
Definition account (username replyMessage : string) : Body.t :=
  {| Body.username := Some username;
     Body.password := Some "secret";
     Body.sharedSecret := None;
     Body.enableStatus := None;
     Body.gamesAndStatus := None;
     Body.replyMessage := Some replyMessage;
     Body.receiveMessages := Some true;
     Body.saveMessages := None |}.

(** The account has been added and started; its bot is the object 0. *)
Definition started (env : Env) (username replyMessage : string) : World :=
  run env initial
    [Http (PostAddAccount (account username replyMessage));
     Http (PostStart username)].

(** The object 0 of [started]. *)
Definition first_bot (env : Env) (username replyMessage : string) : Closure :=
  let c := with_defaults username "secret" (account username replyMessage) in
  {| config := c; bot := buildBot env c |}.

Definition invalid_password : Err.t :=
  {| Err.message := Some "InvalidPassword";
     Err.eresult := Some InvalidPassword;
     Err.toString := "Error: InvalidPassword" |}.

Definition logged_in_elsewhere : Err.t :=
  {| Err.message := Some "Error: LoggedInElsewhere";
     Err.eresult := Some 6%Z;
     Err.toString := "Error: LoggedInElsewhere" |}.

(** An error of both classes. *)
Definition elsewhere_with_bad_password : Err.t :=
  {| Err.message := Some "LoggedInElsewhere";
     Err.eresult := Some InvalidPassword;
     Err.toString := "Error: LoggedInElsewhere" |}.

(** The content of an account file. *)
Definition two_accounts : list Config.t :=
  [Config.Make "alice" "secret" "" true [AppId 730] "hi" true false;
   Config.Make "bob" "hunter2" "" true [Title "idle"] "" false false].

(** The account has been added; it is not started. *)
Definition added (env : Env) (username replyMessage : string) : World :=
  run env initial [Http (PostAddAccount (account username replyMessage))].

Definition disconnected_once : list Input :=
  [Http (PostAddAccount (account "bob" ""));
   Http (PostStart "bob");
   Emits 0 (disconnected 3 "NoConnection")].

(** ** The module as a whole *)

(** The names of the accounts of a list, in order. *)
Definition usernames (configs : list Config.t) : list string :=
  Config.username <$> configs.

(** The file read at start-up names no account twice. *)
Definition distinct_on_load (i : Input) : Prop :=
  match i with
  | Listening (Parsed data) => NoDup (usernames data)
  | _ => True
  end.

(** What a reaction added to the trace. *)
Definition since (w w' : World) : list Output :=
  drop (length (out w)) (out w').

(** Every entry of the registry refers to a bot that exists and that was
    built for the account of that name. *)
Definition registry_sound (w : World) : Prop :=
  forall username h,
    bots w !! username = Some h ->
    exists c, heap w !! h = Some c /\ Config.username (config c) = username.

(** No bot was built for, and no entry is stored under, a name that
    [Object.prototype] has. *)
Definition own_names (w : World) : Prop :=
  (forall h c,
     heap w !! h = Some c -> inherited (Config.username (config c)) = false) /\
  (forall username h, bots w !! username = Some h -> inherited username = false).

(** What a reaction leaves of a bot object: the fields copied from the
    configuration, the peers it has recorded and, when [guard] is set, the
    flag [_waitingForGuard]. *)
Definition bot_kept (guard : bool) (b b' : Bot.t) : Prop :=
  Bot.username b' = Bot.username b /\
  Bot.receiveMessages b' = Bot.receiveMessages b /\
  Bot.saveMessages b' = Bot.saveMessages b /\
  Bot.autoMessage b' = Bot.autoMessage b /\
  Bot.loginKeyPath b' = Bot.loginKeyPath b /\
  (forall steamID, replied b steamID = true -> replied b' steamID = true) /\
  (guard = true -> Bot._waitingForGuard b' = Bot._waitingForGuard b).

(** Every bot object is still there, with the configuration its handlers
    captured. *)
Definition bots_kept (guard : bool) (w w' : World) : Prop :=
  forall h c,
    heap w !! h = Some c ->
    exists c',
      heap w' !! h = Some c' /\ config c' = config c /\
      bot_kept guard (bot c) (bot c').

(** The trace grew, and it got a [statusUpdate] if the registry changed. *)
Definition notified (w w' : World) : Prop :=
  exists new,
    out w' = out w ++ new /\ (bots w' = bots w \/ In StatusUpdate new).

(** The account list is the same. *)
Definition same_configs (w w' : World) : Prop :=
  configsArray w' = configsArray w.

(** The computation completes normally. *)
Definition returns {A : Type} (m : M A) : Prop :=
  forall w, exists a, completion m w = Normal a.

(** The list that the last [saveConfig] of a trace wrote. *)
Fixpoint last_saved (l : list Output) : option (list Config.t) :=
  match l with
  | [] => None
  | o :: rest =>
      match last_saved rest, o with
      | Some configs, _ => Some configs
      | None, WriteConfig configs => Some configs
      | None, _ => None
      end
  end.

(** An answer with an error status. *)
Definition is_rejection (r : Response) : Prop :=
  match r with
  | Json status _ => 400 <= status
  | AccountList _ => False
  end.

(** A request body without any field. *)
Definition no_field : Body.t :=
  {| Body.username := None;
     Body.password := None;
     Body.sharedSecret := None;
     Body.enableStatus := None;
     Body.gamesAndStatus := None;
     Body.replyMessage := None;
     Body.receiveMessages := None;
     Body.saveMessages := None |}.

(** * Properties *)

(** ** Strings *)

Lemma prefix_app (p s : string) :
  String.prefix p s = true <-> exists post, s = p +:+ post.
Proof.
  revert s; induction p as [|a p IH]; intros s.
  - split; [intros _; exists s; reflexivity | intros _; now destruct s].
  - destruct s as [|b s]; simpl.
    + split; [discriminate | intros [post H]; discriminate].
    + destruct (Ascii.ascii_dec a b) as [->|Hab].
      * rewrite IH. split; intros [post H]; exists post.
        -- simpl. now rewrite H.
        -- simpl in H. now injection H.
      * split; [discriminate | intros [post H]].
        simpl in H. injection H as H1 H2. congruence.
Qed.

(** [includes] is the substring test. *)
Lemma includes_app (needle s : string) :
  includes needle s = true <-> exists pre post, s = pre +:+ needle +:+ post.
Proof.
  induction s as [|a s IH]; cbn [includes].
  - rewrite orb_false_r, prefix_app. split.
    + intros [post H]. exists "", post. exact H.
    + intros [pre [post H]]. destruct pre as [|b pre]; [|discriminate].
      exists post. exact H.
  - rewrite orb_true_iff, prefix_app, IH. split.
    + intros [[post H] | [pre [post H]]].
      * exists "", post. exact H.
      * exists (String a pre), post. simpl. now rewrite H.
    + intros [pre [post H]]. destruct pre as [|b pre].
      * left. exists post. exact H.
      * right. simpl in H. injection H as _ H. now exists pre, post.
Qed.

Lemma isLoggedInElsewhere_true (err : Err.t) :
  isLoggedInElsewhere err = true <->
  exists pre post,
    Err.message err = Some (pre +:+ "LoggedInElsewhere" +:+ post).
Proof.
  unfold isLoggedInElsewhere. destruct (Err.message err) as [m|].
  - rewrite includes_app. split; intros [pre [post H]]; exists pre, post.
    + now rewrite H.
    + now injection H.
  - split; [discriminate | intros [pre [post H]]; discriminate].
Qed.

(** ** The registry *)

Lemma sessions_of_Some username (registry : gmap string handle) h :
  registry !! username = Some h -> sessions_of username registry = 1.
Proof.
  intros Hh. unfold sessions_of.
  assert (filter (named username) registry = {[username := h]}) as ->.
  { apply map_eq; intros j. destruct (decide (j = username)) as [->|Hj].
    - rewrite lookup_singleton_eq. now apply map_lookup_filter_Some.
    - rewrite lookup_singleton_ne by done.
      apply map_lookup_filter_None. right. intros x _ Hx. now apply Hj. }
  apply map_size_singleton.
Qed.

(** ** Reading the registry *)

Lemma property_own (registry : gmap string handle) username h :
  registry !! username = Some h -> property registry username = Some (Own h).
Proof. intros H. unfold property. now rewrite H. Qed.

Lemma property_inherited (registry : gmap string handle) username :
  registry !! username = None -> inherited username = true ->
  property registry username = Some Inherited.
Proof. intros H Hi. unfold property. now rewrite H, Hi. Qed.

Lemma property_None (registry : gmap string handle) username :
  property registry username = None <->
  registry !! username = None /\ inherited username = false.
Proof.
  unfold property. destruct (registry !! username) as [h|].
  - split; [discriminate | intros [H _]; discriminate].
  - destruct (inherited username); split; try discriminate; auto.
    intros [_ H]. discriminate.
Qed.

Lemma property_None_2 (registry : gmap string handle) username :
  registry !! username = None -> inherited username = false ->
  property registry username = None.
Proof. intros. now apply property_None. Qed.

Lemma property_Own (registry : gmap string handle) username h :
  property registry username = Some (Own h) <-> registry !! username = Some h.
Proof.
  unfold property. destruct (registry !! username) as [h'|].
  - split; intros [= ->]; reflexivity.
  - destruct (inherited username); split; discriminate.
Qed.

Lemma property_Inherited (registry : gmap string handle) username :
  property registry username = Some Inherited <->
  registry !! username = None /\ inherited username = true.
Proof.
  unfold property. destruct (registry !! username) as [h'|].
  - split; [discriminate | intros [H _]; discriminate].
  - destruct (inherited username); split; try discriminate; auto.
    intros [_ H]. discriminate.
Qed.

Lemma sessions_of_None username (registry : gmap string handle) :
  registry !! username = None -> sessions_of username registry = 0.
Proof.
  intros Hh. unfold sessions_of.
  assert (filter (named username) registry = ∅) as ->.
  { apply map_eq; intros j. rewrite lookup_empty.
    apply map_lookup_filter_None.
    destruct (decide (j = username)) as [->|Hj]; [now left|].
    right. intros x _ Hx. now apply Hj. }
  apply map_size_empty.
Qed.

(** ** start *)

(** Unfolding of the monadic plumbing, down to the primitive state changes. *)
Ltac plumbing :=
  unfold step, exec, completion, react, dispatch, serve, deref, bind, ret,
    when, get, running, writeLog, saveConfig, emit, set_bots, set_heap,
    set_configsArray, new, throw in *.

Lemma startBot_fresh (env : Env) (config : Config.t) (w : World) :
  property (bots w) (Config.username config) = None ->
  startBot env config w =
  (Normal tt,
   {| bots := <[Config.username config := length (heap w)]> (bots w);
      configsArray := configsArray w;
      heap := heap w ++ [{| config := config; bot := buildBot env config |}];
      out := out w ++
             [Log ("[" +:+ Config.username config +:+ "] Starting bot...");
              DoLogin (length (heap w)); StatusUpdate] |}).
Proof.
  intros Hb. unfold startBot. plumbing. rewrite Hb; cbn.
  now repeat rewrite <- app_assoc.
Qed.

Lemma startBot_running (env : Env) (config : Config.t) (w : World) b :
  property (bots w) (Config.username config) = Some b ->
  startBot env config w =
  (Normal tt,
   {| bots := bots w;
      configsArray := configsArray w;
      heap := heap w;
      out := out w ++ [already_running (Config.username config)] |}).
Proof. intros Hb. unfold startBot. plumbing. now rewrite Hb. Qed.

(** X18.  For a name that [Object.prototype] does not have, two calls of
    [startBot] in a row for the same account both return, the registry then
    holds one entry under the name, and the second call only writes the line
    "Bot is already running": it builds no bot and leaves the registry and
    the account list as they were. *)
Theorem startBot_twice (env : Env) (config : Config.t) (w : World) :
  let username := Config.username config in
  let w1 := exec (startBot env config) w in
  let w2 := exec (startBot env config) w1 in
  inherited username = false ->
  completion (startBot env config) w = Normal tt /\
  completion (startBot env config) w1 = Normal tt /\
  sessions_of username (bots w2) = 1 /\
  bots w2 = bots w1 /\
  heap w2 = heap w1 /\
  configsArray w2 = configsArray w1 /\
  out w2 = out w1 ++ [already_running username] /\
  length (heap w2) <= S (length (heap w)).
Proof.
  intros username w1 w2 Hi. subst w2 w1 username. unfold exec, completion.
  destruct (bots w !! Config.username config) as [h|] eqn:Hw.
  - pose proof (property_own _ _ _ Hw) as Hp.
    rewrite (startBot_running env config w _ Hp). cbn [fst snd].
    erewrite startBot_running by exact Hp. cbn.
    repeat split; eauto using sessions_of_Some.
  - rewrite (startBot_fresh env config w (property_None_2 _ _ Hw Hi)).
    cbn [fst snd].
    erewrite startBot_running by (apply property_own, lookup_insert_eq). cbn.
    repeat split.
    + eapply sessions_of_Some, lookup_insert_eq.
    + rewrite length_app. cbn. lia.
Qed.

(** C1.  For a name that [Object.prototype] has, such as "constructor",
    [bots[config.username]] is truthy before anything is stored: the first
    call of [startBot] already writes "Bot is already running", builds no bot
    and stores nothing, and so does the second; the registry holds no entry
    under the name. *)
Theorem startBot_inherited_name (env : Env) (config : Config.t) (w : World) :
  let username := Config.username config in
  let w1 := exec (startBot env config) w in
  let w2 := exec (startBot env config) w1 in
  inherited username = true ->
  bots w !! username = None ->
  completion (startBot env config) w = Normal tt /\
  completion (startBot env config) w1 = Normal tt /\
  sessions_of username (bots w2) = 0 /\
  bots w2 = bots w /\
  heap w2 = heap w /\
  out w2 = out w ++ [already_running username; already_running username].
Proof.
  intros username w1 w2 Hi Hw. subst w2 w1 username.
  unfold exec, completion.
  pose proof (property_inherited _ _ Hw Hi) as Hp.
  rewrite (startBot_running env config w _ Hp). cbn [fst snd].
  erewrite startBot_running by exact Hp. cbn.
  repeat split.
  - now apply sessions_of_None.
  - now rewrite <- app_assoc.
Qed.

(** ** Errors and disconnections *)

Lemma bots_on_error (env : Env) (w : World) h c err :
  bots (exec (on_error env h c err) w) =
  if isLoggedInElsewhere err then bots w
  else delete (Config.username (config c)) (bots w).
Proof.
  unfold on_error, unlink_settles. plumbing.
  destruct (isLoggedInElsewhere err); cbn;
    destruct (old_login_key c err) as [path|]; cbn;
    destruct (property (bots w) (Config.username (config c)))
      as [[h'|]|] eqn:Hb; cbn;
    try destruct (unlink_rejects env path); cbn; try reflexivity;
    symmetry; apply delete_id; now apply property_None in Hb.
Qed.

(** C2.  For a bot that is in the registry: an error whose message
    contains "LoggedInElsewhere" leaves the registry as it is; any other
    error, and any disconnection, deletes the entry of the account (and no
    other entry). *)
Theorem removal_on_error_and_disconnect (env : Env) (w : World)
    (h : handle) (c : Closure) (err : Err.t) (eresult : Z) (msg : string) :
  let username := Config.username (config c) in
  let elsewhere :=
    exists pre post,
      Err.message err = Some (pre +:+ "LoggedInElsewhere" +:+ post) in
  heap w !! h = Some c ->
  bots w !! username = Some h ->
  (elsewhere ->
     bots (step env w (Emits h (error err))) = bots w /\
     bots (step env w (Emits h (error err))) !! username = Some h) /\
  (~ elsewhere ->
     bots (step env w (Emits h (error err))) = delete username (bots w) /\
     bots (step env w (Emits h (error err))) !! username = None) /\
  bots (step env w (Emits h (disconnected eresult msg)))
    = delete username (bots w) /\
  bots (step env w (Emits h (disconnected eresult msg))) !! username = None.
Proof.
  intros username elsewhere Hh Hb.
  assert (step env w (Emits h (error err)) = exec (on_error env h c err) w)
    as Herr.
  { unfold step, exec, react, dispatch, deref, bind. now rewrite Hh. }
  assert (bots (step env w (Emits h (disconnected eresult msg)))
          = delete username (bots w)) as Hdis.
  { unfold on_disconnected. plumbing. now rewrite Hh. }
  rewrite Herr, bots_on_error, Hdis. fold username.
  split; [|split; [|split]].
  - intros He. apply isLoggedInElsewhere_true in He. now rewrite He.
  - intros He. destruct (isLoggedInElsewhere err) eqn:Hcls.
    + apply isLoggedInElsewhere_true in Hcls. contradiction.
    + split; [reflexivity | apply lookup_delete_eq].
  - reflexivity.
  - apply lookup_delete_eq.
Qed.

(** ** stop *)

Lemma stopBot_running (env : Env) (username : string) (w : World) h :
  bots w !! username = Some h ->
  stopBot env username w =
  (Normal tt,
   {| bots := delete username (bots w);
      configsArray := configsArray w;
      heap := heap w;
      out := out w ++ stop_trace env username h |}).
Proof.
  intros Hb. unfold stopBot, stop_trace, try_catch_finally, logOff_on, logOff.
  plumbing. rewrite (property_own _ _ _ Hb); cbn.
  destruct (logOff_throws env h) as [e|]; cbn;
    repeat rewrite <- app_assoc; reflexivity.
Qed.

Lemma stopBot_not_running (env : Env) (username : string) (w : World) :
  property (bots w) username = None ->
  stopBot env username w =
  (Normal tt,
   {| bots := bots w;
      configsArray := configsArray w;
      heap := heap w;
      out := out w ++ [Log ("[" +:+ username +:+ "] Bot is not running.")] |}).
Proof.
  intros Hb. unfold stopBot. plumbing. now rewrite Hb.
Qed.

Lemma stopBot_inherited (env : Env) (username : string) (w : World) :
  property (bots w) username = Some Inherited ->
  stopBot env username w =
  (Normal tt,
   {| bots := delete username (bots w);
      configsArray := configsArray w;
      heap := heap w;
      out := out w ++ stop_trace_inherited username |}).
Proof.
  intros Hb.
  unfold stopBot, stop_trace_inherited, try_catch_finally, logOff_on.
  plumbing. rewrite Hb; cbn. repeat rewrite <- app_assoc; reflexivity.
Qed.

Lemma stopBot_truthy (env : Env) (username : string) (w : World) bot :
  property (bots w) username = Some bot ->
  stopBot env username w =
  (Normal tt,
   {| bots := delete username (bots w);
      configsArray := configsArray w;
      heap := heap w;
      out := out w ++ stop_outputs env username bot |}).
Proof.
  intros Hp. destruct bot as [h|].
  - apply property_Own in Hp. now apply stopBot_running.
  - now apply stopBot_inherited.
Qed.

(** X19.  [stopBot] always returns, and afterwards the name has no entry.
    When [bots[username]] is undefined it only writes "Bot is not running".
    When it is a bot it calls [logOff]; whether that call throws or not (the
    error is logged when it does), the entry is deleted, then the status
    update is sent.  When it is a value inherited from [Object.prototype],
    the call of [logOff] fails, the failure is logged, and the status update
    is sent although the registry did not change. *)
Theorem stopBot_never_throws (env : Env) (username : string) (w : World) :
  let w' := exec (stopBot env username) w in
  completion (stopBot env username) w = Normal tt /\
  bots w' !! username = None /\
  heap w' = heap w /\
  configsArray w' = configsArray w /\
  match property (bots w) username with
  | None =>
      bots w' = bots w /\
      out w' = out w ++ [Log ("[" +:+ username +:+ "] Bot is not running.")]
  | Some (Own h) =>
      bots w' = delete username (bots w) /\
      out w' =
        out w ++
        [Log ("[" +:+ username +:+ "] Stopping bot..."); LogOff h] ++
        match logOff_throws env h with
        | Some e =>
            [Log ("[" +:+ username +:+ "] Error during logOff: "
                  +:+ show_message e)]
        | None => []
        end ++
        [StatusUpdate; Log ("[" +:+ username +:+ "] Bot stopped.")]
  | Some Inherited =>
      bots w' = bots w /\
      out w' =
        out w ++
        [Log ("[" +:+ username +:+ "] Stopping bot...");
         Log ("[" +:+ username +:+
              "] Error during logOff: bot.logOff is not a function");
         StatusUpdate;
         Log ("[" +:+ username +:+ "] Bot stopped.")]
  end.
Proof.
  intros w'. subst w'. unfold exec, completion.
  destruct (property (bots w) username) as [[h|]|] eqn:Hp.
  - apply property_Own in Hp.
    rewrite (stopBot_running env username w h Hp); cbn.
    repeat split. apply lookup_delete_eq.
  - rewrite (stopBot_inherited env username w Hp); cbn.
    apply property_Inherited in Hp as [Hb _].
    rewrite (delete_id _ _ Hb). repeat split. exact Hb.
  - rewrite (stopBot_not_running env username w Hp); cbn.
    apply property_None in Hp as [Hb _]. repeat split. exact Hb.
Qed.

(** C3.  For a name that [Object.prototype] has, such as "constructor", and
    that has no entry, [stopBot] does not write "Bot is not running": it
    takes the inherited value for a bot, writes "Stopping bot...", logs the
    failure of the call of [logOff], sends a status update and writes
    "Bot stopped.".  It returns, and [bots[username]] is as truthy as
    before. *)
Theorem stopBot_inherited_name (env : Env) (username : string) (w : World) :
  let w' := exec (stopBot env username) w in
  inherited username = true ->
  bots w !! username = None ->
  completion (stopBot env username) w = Normal tt /\
  bots w' = bots w /\
  property (bots w') username = Some Inherited /\
  out w' =
    out w ++
    [Log ("[" +:+ username +:+ "] Stopping bot...");
     Log ("[" +:+ username +:+
          "] Error during logOff: bot.logOff is not a function");
     StatusUpdate;
     Log ("[" +:+ username +:+ "] Bot stopped.")].
Proof.
  intros w' Hi Hb. subst w'. unfold exec, completion.
  pose proof (property_inherited _ _ Hb Hi) as Hp.
  rewrite (stopBot_inherited env username w Hp); cbn.
  rewrite (delete_id _ _ Hb). repeat split. exact Hp.
Qed.

(** ** Invalid password *)

(** C4, counterexample.  The factory gave carol's bot no login key file:
    the error with result code [InvalidPassword] removes her from the
    registry and no [fs.unlink] call is made. *)
Lemma no_deletion_attempt_without_key :
  let w := started quiet "carol" "" in
  let w' := step quiet w (Emits 0 (error invalid_password)) in
  heap w !! 0 = Some (first_bot quiet "carol" "") /\
  Bot.loginKeyPath (bot (first_bot quiet "carol" "")) = None /\
  Err.eresult invalid_password = Some InvalidPassword /\
  bots w !! "carol" = Some 0 /\
  bots w' !! "carol" = None /\
  deletion_attempts (out w') = 0 /\
  ~ always_one_deletion_attempt.
Proof.
  repeat split.
  intros H.
  specialize (H quiet (started quiet "carol" "") 0
                (first_bot quiet "carol" "") invalid_password
                eq_refl eq_refl).
  vm_compute in H. discriminate H.
Qed.

Lemma old_login_key_Some (c : Closure) (err : Err.t) path :
  Err.eresult err = Some InvalidPassword ->
  Bot.loginKeyPath (bot c) = Some path ->
  truthy path = true ->
  old_login_key c err = Some path.
Proof.
  intros He Hp Ht. unfold old_login_key.
  rewrite bool_decide_eq_true_2 by exact He. now rewrite Hp, Ht.
Qed.

Lemma old_login_key_None (c : Closure) (err : Err.t) :
  truthy_opt (Bot.loginKeyPath (bot c)) = false ->
  old_login_key c err = None.
Proof.
  intros Ht. unfold old_login_key, truthy_opt in *.
  destruct (bool_decide _); [|reflexivity].
  destruct (Bot.loginKeyPath (bot c)) as [p|]; [|reflexivity].
  now rewrite Ht.
Qed.

Lemma step_error (env : Env) (w : World) h c err :
  heap w !! h = Some c ->
  step env w (Emits h (error err)) = exec (on_error env h c err) w.
Proof. intros Hh. plumbing. now rewrite Hh. Qed.

(** C4, amended.  An error with result code [InvalidPassword] on a bot that
    has a login key path makes one [fs.unlink] call on that path; on a bot
    without one it makes none.  The outcome of the deletion changes nothing
    but the trace, which gets one more line when the deletion fails. *)
Theorem deletion_attempt_on_invalid_password (env : Env) (w : World)
    (h : handle) (c : Closure) (err : Err.t) :
  let username := Config.username (config c) in
  let w' := step env w (Emits h (error err)) in
  let w0 := step (unlink_succeeds env) w (Emits h (error err)) in
  heap w !! h = Some c ->
  Err.eresult err = Some InvalidPassword ->
  (forall path,
     Bot.loginKeyPath (bot c) = Some path -> truthy path = true ->
     deletion_attempts (out w') = S (deletion_attempts (out w)) /\
     In (Unlink path) (out w') /\
     out w' = out w0 ++
              match unlink_rejects env path with
              | Some e =>
                  [Log ("[" +:+ username +:+
                        "] Could not delete old login key: "
                        +:+ show_message e)]
              | None => []
              end) /\
  (truthy_opt (Bot.loginKeyPath (bot c)) = false ->
     deletion_attempts (out w') = deletion_attempts (out w)) /\
  bots w' = bots w0 /\
  heap w' = heap w0 /\
  configsArray w' = configsArray w0.
Proof.
  intros username w' w0 Hh He. subst w' w0.
  rewrite !(step_error _ w h c err Hh).
  split; [|split].
  - intros path Hp Ht.
    unfold on_error, unlink_settles.
    rewrite (old_login_key_Some c err path He Hp Ht). fold username.
    plumbing. cbn.
    destruct (isLoggedInElsewhere err); cbn;
      destruct (property (bots w) username) as [[h'|]|]; cbn;
      destruct (unlink_rejects env path) as [e|]; cbn;
      unfold deletion_attempts;
      rewrite ?List.filter_app, ?length_app, ?app_nil_r; cbn;
      (split; [lia | split; [|reflexivity]]);
      rewrite ?in_app_iff; cbn; tauto.
  - intros Ht. unfold on_error.
    rewrite (old_login_key_None c err Ht). fold username.
    plumbing. cbn.
    destruct (isLoggedInElsewhere err); cbn;
      destruct (property (bots w) username) as [[h'|]|]; cbn;
      unfold deletion_attempts;
      rewrite ?List.filter_app, ?length_app; cbn; lia.
  - rewrite !bots_on_error.
    unfold on_error, unlink_settles. plumbing. cbn.
    destruct (isLoggedInElsewhere err); cbn;
      destruct (old_login_key c err) as [path|]; cbn;
      destruct (property (bots w) (Config.username (config c)))
        as [[h'|]|]; cbn;
      try destruct (unlink_rejects env path) as [e|]; cbn; auto.
Qed.

(** ** Frame conditions

    [keeps R m]: running [m] relates the state before to the state after by
    [R], whatever the completion.  For a preorder [R] the property goes
    through the monad. *)

Section Frame.
Context (R : World -> World -> Prop) `{!PreOrder R}.

Lemma keeps_ret {A} (a : A) : keeps R (ret a).
Proof. intros w. reflexivity. Qed.

Lemma keeps_get : keeps R get.
Proof. intros w. reflexivity. Qed.

Lemma keeps_running username : keeps R (running username).
Proof. intros w. reflexivity. Qed.

Lemma keeps_deref h : keeps R (deref h).
Proof. intros w. reflexivity. Qed.

Lemma keeps_throw {A} e : keeps R (@throw A e).
Proof. intros w. reflexivity. Qed.

Lemma keeps_bind {A B} (m : M A) (k : A -> M B) :
  keeps R m -> (forall a, keeps R (k a)) -> keeps R (bind m k).
Proof.
  intros Hm Hk w. specialize (Hm w). unfold exec, bind in *.
  destruct (m w) as [[a|e] w1]; cbn in *; [|exact Hm].
  etransitivity; [exact Hm | apply Hk].
Qed.

Lemma keeps_when (b : bool) (m : M unit) : keeps R m -> keeps R (when b m).
Proof. intros Hm. destruct b; [exact Hm | apply keeps_ret]. Qed.

Lemma keeps_try_catch_finally body handler final :
  keeps R body -> (forall e, keeps R (handler e)) -> keeps R final ->
  keeps R (try_catch_finally body handler final).
Proof.
  intros Hb Hh Hf w. specialize (Hb w).
  unfold exec, try_catch_finally in *.
  destruct (body w) as [[a|e] w1]; cbn in *.
  - etransitivity; [exact Hb | apply Hf].
  - specialize (Hh e w1). unfold exec in Hh.
    destruct (handler e w1) as [[a|e'] w2]; cbn in *.
    + etransitivity; [exact Hb|]. etransitivity; [exact Hh | apply Hf].
    + specialize (Hf w2). unfold exec in Hf.
      destruct (final w2) as [[a|e''] w3]; cbn in *;
        (etransitivity; [exact Hb|]; etransitivity; [exact Hh | exact Hf]).
Qed.
End Frame.

(** Breaks a [keeps] goal down to the primitive operations; [prim] closes
    those. *)
Ltac frame_with prim :=
  repeat first
    [ solve [prim]
    | apply keeps_ret; solve [apply _]
    | apply keeps_get; solve [apply _]
    | apply keeps_running; solve [apply _]
    | apply keeps_deref; solve [apply _]
    | apply keeps_throw; solve [apply _]
    | apply keeps_bind; [solve [apply _] | | intros ?]
    | apply keeps_when; [solve [apply _] |]
    | apply keeps_try_catch_finally; [solve [apply _] | | intros ? |]
    | match goal with
      | |- keeps _ (match ?x with _ => _ end) => destruct x
      end ].

(** ** Automatic replies *)

#[local] Instance no_reply_preorder : PreOrder no_reply.
Proof.
  split.
  - intros w. split; [reflexivity | eauto].
  - intros w1 w2 w3 [Ha1 Ha2] [Hb1 Hb2]. split.
    + intros h p. now rewrite Hb1, Ha1.
    + intros h c Hc. destruct (Ha2 h c Hc) as (c2 & Hc2 & E2).
      destruct (Hb2 h c2 Hc2) as (c3 & Hc3 & E3).
      exists c3. split; [exact Hc3 | congruence].
Qed.

Lemma replies_app h steamID (l1 l2 : list Output) :
  replies h steamID (l1 ++ l2) = replies h steamID l1 + replies h steamID l2.
Proof. unfold replies. now rewrite List.filter_app, length_app. Qed.

Lemma replies_not_chat h steamID (o : Output) :
  is_chat o = false -> replies h steamID [o] = 0.
Proof. now destruct o. Qed.

Lemma no_reply_emit (o : Output) : is_chat o = false -> keeps no_reply (emit o).
Proof.
  intros Ho w. split; cbn; [|eauto].
  intros h p. rewrite replies_app, (replies_not_chat _ _ _ Ho). lia.
Qed.

Lemma no_reply_set_bots f : keeps no_reply (set_bots f).
Proof. intros w. split; cbn; eauto. Qed.

Lemma no_reply_set_configsArray f : keeps no_reply (set_configsArray f).
Proof. intros w. split; cbn; eauto. Qed.

Lemma no_reply_new c : keeps no_reply (new c).
Proof.
  intros w. split; cbn; [eauto|].
  intros h c0 Hc0. exists c0. split; [|reflexivity].
  now apply lookup_app_l_Some.
Qed.

Lemma no_reply_update_bot h f :
  (forall b, Bot.messageReceived (f b) = Bot.messageReceived b) ->
  keeps no_reply (update_bot h f).
Proof.
  intros Hf w. split; cbn; [eauto|].
  intros h0 c0 Hc0. destruct (heap w !! h) as [c|] eqn:Hc; [|eauto].
  destruct (decide (h = h0)) as [->|Hne].
  - eexists. split.
    + apply list_lookup_insert_eq. eapply lookup_lt_Some, Hc0.
    + cbn. rewrite Hf. congruence.
  - exists c0. split; [|reflexivity]. now rewrite list_lookup_insert_ne.
Qed.

Ltac no_reply_prim :=
  first [ apply no_reply_emit; reflexivity
        | apply no_reply_set_bots
        | apply no_reply_set_configsArray
        | apply no_reply_new
        | apply no_reply_update_bot; intros []; reflexivity ].

Lemma no_reply_stopBot env username : keeps no_reply (stopBot env username).
Proof. unfold stopBot, logOff_on, logOff, writeLog. frame_with no_reply_prim. Qed.

Lemma no_reply_startBot env config : keeps no_reply (startBot env config).
Proof. unfold startBot, writeLog. frame_with no_reply_prim. Qed.

Lemma no_reply_serve env req : keeps no_reply (serve env req).
Proof.
  pose proof (no_reply_stopBot env). pose proof (no_reply_startBot env).
  destruct req; cbn;
    unfold get_accounts, post_start, post_stop, post_submit_guard,
      submitSteamGuardCode, post_add_account, put_edit_account,
      delete_account, saveConfig, writeLog;
    frame_with ltac:(first [no_reply_prim | auto]).
Qed.

Lemma no_reply_loadConfig r : keeps no_reply (loadConfig r).
Proof.
  unfold loadConfig, saveConfig, writeLog. frame_with no_reply_prim.
Qed.

Lemma no_reply_other_events env h (ev : Event) :
  (forall steamID message, ev <> friendMessage steamID message) ->
  keeps no_reply (dispatch env h ev).
Proof.
  intros Hev. unfold dispatch.
  apply keeps_bind; [apply _ | apply keeps_deref; apply _ | intros [c|]];
    [|apply keeps_ret; apply _].
  destruct ev; try (now exfalso; eapply Hev);
    unfold on_loggedOn, on_error, unlink_settles, on_steamGuardRequested,
      on_disconnected, writeLog;
    frame_with no_reply_prim.
Qed.

Lemma step_friendMessage (env : Env) (w : World) h c steamID message :
  heap w !! h = Some c ->
  step env w (Emits h (friendMessage steamID message))
  = exec (on_friendMessage env h c steamID message) w.
Proof. intros Hh. plumbing. now rewrite Hh. Qed.

Lemma replies_one h steamID h' steamID' text :
  replies h steamID [ChatMessage h' steamID' text] =
  if decide (h' = h /\ steamID' = steamID) then 1 else 0.
Proof.
  unfold replies. cbn.
  destruct (decide (h' = h /\ steamID' = steamID)) as [[-> ->]|Hne].
  - now rewrite !bool_decide_eq_true_2.
  - destruct (decide (h' = h)) as [->|]; [|now rewrite bool_decide_eq_false_2].
    destruct (decide (steamID' = steamID)) as [->|]; [tauto|].
    rewrite bool_decide_eq_true_2 by done.
    now rewrite (bool_decide_eq_false_2 (steamID' = steamID)).
Qed.

(** The handler of [friendMessage] when the guard of the reply is false. *)
Lemma friendMessage_silent (env : Env) (w : World) h c steamID message :
  negb (replied (bot c) steamID) && truthy (Bot.autoMessage (bot c)) = false ->
  no_reply w (exec (on_friendMessage env h c steamID message) w) /\
  heap (exec (on_friendMessage env h c steamID message) w) = heap w.
Proof.
  intros Hg. unfold on_friendMessage. rewrite Hg. split.
  - revert w.
    match goal with
    | |- forall w, no_reply w (exec ?m w) => change (keeps no_reply m)
    end.
    unfold writeLog. cbn [when].
    frame_with no_reply_prim.
  - plumbing.
    destruct (Bot.receiveMessages (bot c)), (Bot.saveMessages (bot c)); cbn;
      try destruct (append_rejects env _ _); reflexivity.
Qed.

(** The handler of [friendMessage] when the guard of the reply is true. *)
Lemma friendMessage_replies (env : Env) (w : World) h c steamID message :
  heap w !! h = Some c ->
  negb (replied (bot c) steamID) && truthy (Bot.autoMessage (bot c)) = true ->
  let w' := exec (on_friendMessage env h c steamID message) w in
  (forall h' p,
     replies h' p (out w') =
     replies h' p (out w) + if decide (h = h' /\ steamID = p) then 1 else 0) /\
  heap w' =
    <[h := {| config := config c; bot := mark_replied steamID (bot c) |}]>
      (heap w) /\
  In (ChatMessage h steamID (Bot.autoMessage (bot c))) (out w').
Proof.
  intros Hh Hg w'. subst w'. unfold on_friendMessage, update_bot.
  rewrite Hg. plumbing.
  destruct (Bot.receiveMessages (bot c)), (Bot.saveMessages (bot c)); cbn;
    try destruct (append_rejects env _ _); cbn; rewrite Hh;
    (split; [|split; [reflexivity|]]);
    try (intros h' p; rewrite !replies_app, replies_one;
         rewrite ?replies_not_chat by reflexivity; lia);
    rewrite !in_app_iff; cbn; tauto.
Qed.

Lemma replies_tracked_no_reply (w w' : World) :
  no_reply w w' -> replies_tracked w -> replies_tracked w'.
Proof.
  intros [Hout Hheap] Hinv h p. rewrite Hout.
  destruct (Hinv h p) as [H0 | (H1 & c & Hc & Hr)]; [now left | right].
  split; [exact H1|]. destruct (Hheap h c Hc) as (c' & Hc' & E).
  exists c'. split; [exact Hc'|]. unfold replied in *. now rewrite E.
Qed.

Lemma replied_mark_replied steamID p (b : Bot.t) :
  replied (mark_replied steamID b) p =
  if decide (steamID = p) then true else replied b p.
Proof.
  unfold replied, mark_replied; cbn.
  destruct (decide (steamID = p)) as [->|Hne].
  - now rewrite lookup_insert_eq.
  - now rewrite lookup_insert_ne.
Qed.

Lemma replies_tracked_step (env : Env) (w : World) (i : Input) :
  replies_tracked w -> replies_tracked (step env w i).
Proof.
  intros Hinv.
  destruct i as [r | req | h ev | h pending].
  - eapply replies_tracked_no_reply; [|exact Hinv].
    apply (no_reply_loadConfig r).
  - eapply replies_tracked_no_reply; [|exact Hinv].
    unfold step, react.
    apply (keeps_bind no_reply);
      [apply no_reply_serve | intros ?; apply keeps_ret; apply _].
  - destruct ev as [ | err | steamID message | | eresult msg];
      try (eapply replies_tracked_no_reply; [|exact Hinv];
           apply (no_reply_other_events env h); intros ? ?; discriminate).
    destruct (heap w !! h) as [c|] eqn:Hh.
    2:{ assert (step env w (Emits h (friendMessage steamID message)) = w) as ->
          by (plumbing; now rewrite Hh).
        exact Hinv. }
    rewrite (step_friendMessage env w h c steamID message Hh).
    destruct (negb (replied (bot c) steamID)
              && truthy (Bot.autoMessage (bot c))) eqn:Hg.
    2:{ eapply replies_tracked_no_reply; [|exact Hinv].
        now apply friendMessage_silent. }
    destruct (friendMessage_replies env w h c steamID message Hh Hg)
      as (Hout & Hheap & _).
    apply andb_true_iff in Hg as [Hnew _]. apply negb_true_iff in Hnew.
    intros h' p. rewrite Hout, Hheap.
    destruct (decide (h = h' /\ steamID = p)) as [[<- <-]|Hne].
    + right. destruct (Hinv h steamID) as [H0 | (_ & c0 & Hc0 & Hr)].
      * split; [lia|]. eexists. split.
        -- apply list_lookup_insert_eq. eapply lookup_lt_Some, Hh.
        -- cbn. rewrite replied_mark_replied. now rewrite decide_True.
      * congruence.
    + destruct (Hinv h' p) as [H0 | (H1 & c0 & Hc0 & Hr)]; [left; lia | right].
      split; [lia|].
      destruct (decide (h = h')) as [<-|Hh'].
      * eexists. split.
        -- apply list_lookup_insert_eq. eapply lookup_lt_Some, Hh.
        -- cbn. rewrite replied_mark_replied.
           destruct (decide (steamID = p)); [reflexivity | congruence].
      * exists c0. split; [|exact Hr]. now rewrite list_lookup_insert_ne.
  - eapply replies_tracked_no_reply; [|exact Hinv].
    unfold step, react. apply no_reply_update_bot. now intros [].
Qed.

Lemma replies_tracked_run (env : Env) (inputs : list Input) (w : World) :
  replies_tracked w -> replies_tracked (run env w inputs).
Proof.
  revert w. induction inputs as [|i inputs IH]; intros w Hinv; cbn.
  - exact Hinv.
  - apply IH, replies_tracked_step, Hinv.
Qed.

Lemma replies_tracked_initial : replies_tracked initial.
Proof. intros h p. now left. Qed.

(** C5.  In every run of the module, a bot sends at most one automatic
    reply to a given peer.  The handler of [friendMessage] sends a reply
    exactly when [autoMessage] is set and the bot has not recorded the peer;
    when it sends one, it records the peer. *)
Theorem at_most_one_reply (env : Env) :
  (forall inputs h steamID,
     replies h steamID (out (run env initial inputs)) <= 1) /\
  (forall w h c steamID message,
     heap w !! h = Some c ->
     let w' := step env w (Emits h (friendMessage steamID message)) in
     (truthy (Bot.autoMessage (bot c)) = true ->
      replied (bot c) steamID = false ->
      replies h steamID (out w') = S (replies h steamID (out w)) /\
      In (ChatMessage h steamID (Bot.autoMessage (bot c))) (out w') /\
      exists c', heap w' !! h = Some c' /\ replied (bot c') steamID = true) /\
     (truthy (Bot.autoMessage (bot c)) = false \/
      replied (bot c) steamID = true ->
      forall h' p, replies h' p (out w') = replies h' p (out w))).
Proof.
  split.
  - intros inputs h steamID.
    destruct (replies_tracked_run env inputs initial replies_tracked_initial
                h steamID) as [H | [H _]]; lia.
  - intros w h c steamID message Hh w'. subst w'.
    rewrite (step_friendMessage env w h c steamID message Hh). split.
    + intros Ha Hr.
      assert (negb (replied (bot c) steamID)
              && truthy (Bot.autoMessage (bot c)) = true) as Hg
        by now rewrite Ha, Hr.
      destruct (friendMessage_replies env w h c steamID message Hh Hg)
        as (Hout & Hheap & Hin).
      split; [|split; [exact Hin|]].
      * rewrite Hout, decide_True by done. lia.
      * rewrite Hheap. eexists. split.
        -- apply list_lookup_insert_eq. eapply lookup_lt_Some, Hh.
        -- cbn. rewrite replied_mark_replied. now rewrite decide_True.
    + intros Hor.
      assert (negb (replied (bot c) steamID)
              && truthy (Bot.autoMessage (bot c)) = false) as Hg
        by (destruct Hor as [-> | ->]; [apply andb_false_r | reflexivity]).
      apply (friendMessage_silent env w h c steamID message Hg).
Qed.

(** ** Restart *)

Lemma stopBot_completes (env : Env) (username : string) (w : World) :
  completion (stopBot env username) w = Normal tt /\
  bots (exec (stopBot env username) w) = delete username (bots w) /\
  heap (exec (stopBot env username) w) = heap w /\
  configsArray (exec (stopBot env username) w) = configsArray w.
Proof.
  unfold completion, exec.
  destruct (property (bots w) username) as [[h|]|] eqn:Hp.
  - apply property_Own in Hp. now rewrite (stopBot_running env username w h Hp).
  - now rewrite (stopBot_inherited env username w Hp).
  - rewrite (stopBot_not_running env username w Hp); cbn.
    apply property_None in Hp as [Hb _].
    repeat split. symmetry. now apply delete_id.
Qed.

(** C6.  Stopping an account and starting it again puts a new bot object
    in the registry, whose record of peers is empty: with an auto-reply text
    configured, the first message of any peer to the new bot is answered once
    and the second is not, whatever the previous bot had recorded.  The
    account is one that can run: its name is not a property of
    [Object.prototype], as is the name of every bot that was ever built
    ([built_not_inherited]). *)
Theorem restart_resets_replies (env : Env) (w : World) (cfg : Config.t)
    (steamID message : string) :
  let username := Config.username cfg in
  let h' := length (heap w) in
  let restart := stopBot env username;; startBot env cfg in
  let w1 := exec restart w in
  let w2 := step env w1 (Emits h' (friendMessage steamID message)) in
  let w3 := step env w2 (Emits h' (friendMessage steamID message)) in
  inherited username = false ->
  truthy (Config.replyMessage cfg) = true ->
  completion restart w = Normal tt /\
  bots w1 !! username = Some h' /\
  heap w !! h' = None /\
  (forall h c, heap w !! h = Some c -> heap w1 !! h = Some c) /\
  (exists c, heap w1 !! h' = Some c /\ config c = cfg /\
             Bot.messageReceived (bot c) = ∅) /\
  replies h' steamID (out w2) = S (replies h' steamID (out w1)) /\
  replies h' steamID (out w3) = replies h' steamID (out w2).
Proof.
  intros username h' restart w1 w2 w3 Hname Hauto.
  destruct (stopBot_completes env username w) as (Hc & Hb & Hh & _).
  pose (ws := exec (stopBot env username) w).
  assert (property (bots ws) username = None) as Hnone
    by (subst ws; rewrite Hb;
        apply property_None_2; [apply lookup_delete_eq | exact Hname]).
  pose proof (startBot_fresh env cfg ws Hnone) as Hstart.
  assert (restart w = startBot env cfg ws) as Hrestart.
  { subst restart ws. unfold bind, exec, completion in *.
    destruct (stopBot env username w) as [[[]|e] w0]; cbn in *;
      [reflexivity | discriminate]. }
  set (c' := {| config := cfg; bot := buildBot env cfg |}).
  assert (heap w1 = heap w ++ [c']) as Hheap1.
  { subst w1. unfold exec. rewrite Hrestart, Hstart; cbn.
    subst ws. now rewrite Hh. }
  assert (heap w1 !! h' = Some c') as Hnew.
  { rewrite Hheap1. subst h'. now rewrite lookup_app_r, Nat.sub_diag. }
  assert (negb (replied (bot c') steamID)
          && truthy (Bot.autoMessage (bot c')) = true) as Hg.
  { cbn. unfold replied; cbn. rewrite lookup_empty; cbn. exact Hauto. }
  destruct (friendMessage_replies env w1 h' c' steamID message Hnew Hg)
    as (Hout2 & Hheap2 & _).
  assert (w2 = exec (on_friendMessage env h' c' steamID message) w1) as Hw2
    by (subst w2; now apply step_friendMessage).
  set (c'' := {| config := cfg; bot := mark_replied steamID (bot c') |}).
  assert (heap w2 !! h' = Some c'') as Hmarked.
  { rewrite Hw2, Hheap2. apply list_lookup_insert_eq.
    eapply lookup_lt_Some, Hnew. }
  assert (negb (replied (bot c'') steamID)
          && truthy (Bot.autoMessage (bot c'')) = false) as Hg'.
  { subst c''. cbn [bot]. rewrite replied_mark_replied.
    now rewrite decide_True. }
  repeat split.
  - unfold completion. rewrite Hrestart, Hstart. reflexivity.
  - subst w1. unfold exec. rewrite Hrestart, Hstart; cbn.
    subst ws h'. rewrite Hh. apply lookup_insert_eq.
  - apply lookup_ge_None_2. subst h'. lia.
  - intros h c Hold. rewrite Hheap1. now apply lookup_app_l_Some.
  - exists c'. repeat split. exact Hnew.
  - rewrite Hw2, Hout2, decide_True by done. lia.
  - subst w3. rewrite (step_friendMessage env w2 h' c'' steamID message Hmarked).
    apply (friendMessage_silent env w2 h' c'' steamID message Hg').
Qed.

(** ** Steam Guard codes *)

(** C7.  [POST /api/submit-guard] answers "Code submitted" exactly when the
    registry has a bot under the name and that bot is waiting for a code; it
    then passes the code to the bot and writes one log line.  In every other
    case it answers 400 and does nothing.  In no case does it touch the
    registry or a bot object. *)
Theorem submit_guard_cases (username code : string) (w : World) :
  let pending :=
    exists h c, bots w !! username = Some h /\ heap w !! h = Some c /\
                Bot._waitingForGuard (bot c) = true in
  let answer := completion (post_submit_guard username code) w in
  let w' := exec (post_submit_guard username code) w in
  (pending <-> answer = Normal (Json 200 "Code submitted")) /\
  (forall h, pending -> bots w !! username = Some h ->
     out w' = out w ++
              [SubmitSteamGuardCode h code;
               Log ("[" +:+ username +:+ "] Steam Guard code submitted.")]) /\
  (~ pending -> answer = Normal (Json 400 no_guard_pending) /\ w' = w) /\
  bots w' = bots w /\
  heap w' = heap w /\
  configsArray w' = configsArray w.
Proof.
  intros pending answer w'. subst answer w'.
  unfold post_submit_guard, submitSteamGuardCode. plumbing.
  destruct (property (bots w) username) as [[h|]|] eqn:Hp; cbn.
  2,3: assert (bots w !! username = None) as Hb
         by (first [apply property_Inherited in Hp | apply property_None in Hp];
             apply Hp);
       assert (~ pending) as Hn
         by (intros (h' & c' & H1 & H2 & H3); congruence);
       repeat split; try tauto; try discriminate; intros; tauto.
  apply property_Own in Hp as Hb.
  destruct (heap w !! h) as [c|] eqn:Hh; cbn.
  2:{ assert (~ pending) as Hn
        by (intros (h' & c' & H1 & H2 & H3); congruence).
      repeat split; try tauto; try discriminate; intros; tauto. }
  destruct (Bot._waitingForGuard (bot c)) eqn:Hwait; cbn.
  - assert pending as Hp' by (exists h, c; auto).
    repeat split; try tauto.
    intros h0 _ Hb0. rewrite Hb in Hb0. injection Hb0 as <-.
    now rewrite <- app_assoc.
  - assert (~ pending) as Hn
      by (intros (h' & c' & H1 & H2 & H3); congruence).
    repeat split; try tauto; try discriminate; intros; tauto.
Qed.

(** ** The account list *)

Lemma account_view_same_public registry (c1 c2 : Config.t) :
  same_public c1 c2 -> account_view registry c1 = account_view registry c2.
Proof.
  intros (H1 & H2 & H3 & H4 & H5 & H6). unfold account_view.
  now rewrite H1, H2, H3, H4, H5, H6.
Qed.

Lemma is_Some_property (registry : gmap string handle) username :
  is_Some (property registry username) <->
  is_Some (registry !! username) \/ inherited username = true.
Proof.
  unfold property. destruct (registry !! username) as [h|].
  - split; eauto.
  - destruct (inherited username).
    + split; eauto.
    + split; [intros [s H]; discriminate|].
      intros [[h H]|H]; discriminate.
Qed.

(** X20.  [GET /api/accounts] changes nothing and answers with one object
    per configured account, in order: the name, the five display fields of
    the configuration, and [running], true exactly when [bots[username]] is
    not undefined; for a name that [Object.prototype] does not have, that is
    exactly when the registry has an entry under the name.  The answer does
    not depend on [password] and [sharedSecret]. *)
Theorem accounts_hide_credentials :
  (forall w,
     exec get_accounts w = w /\
     exists l,
       completion get_accounts w = Normal (AccountList l) /\
       length l = length (configsArray w) /\
       forall i c,
         configsArray w !! i = Some c ->
         exists a,
           l !! i = Some a /\
           Account.username a = Config.username c /\
           Account.enableStatus a = Config.enableStatus c /\
           Account.gamesAndStatus a = Config.gamesAndStatus c /\
           Account.replyMessage a = Config.replyMessage c /\
           Account.receiveMessages a = Config.receiveMessages c /\
           Account.saveMessages a = Config.saveMessages c /\
           (Account.running a = true <->
            is_Some (property (bots w) (Config.username c))) /\
           (inherited (Config.username c) = false ->
            (Account.running a = true <->
             is_Some (bots w !! Config.username c)))) /\
  (forall w1 w2,
     bots w1 = bots w2 ->
     Forall2 same_public (configsArray w1) (configsArray w2) ->
     completion get_accounts w1 = completion get_accounts w2).
Proof.
  split.
  - intros w. split; [reflexivity|].
    exists (account_view (bots w) <$> configsArray w).
    split; [reflexivity | split; [apply length_fmap|]].
    intros i c Hc. exists (account_view (bots w) c).
    rewrite list_lookup_fmap, Hc. cbn.
    repeat split;
      try apply bool_decide_eq_true_1; try apply bool_decide_eq_true_2.
    + intros Hr%bool_decide_eq_true_1%is_Some_property.
      destruct Hr as [Hr|Hr]; [exact Hr | congruence].
    + intros Hr. apply bool_decide_eq_true_2, is_Some_property. now left.
  - intros w1 w2 Hb Hc. unfold get_accounts. plumbing. cbn.
    rewrite Hb. do 2 f_equal.
    induction Hc as [|c1 c2 l1 l2 Hsame _ IH]; [reflexivity|].
    cbn. now rewrite IH, (account_view_same_public _ c1 c2 Hsame).
Qed.

(** C8.  For a configured account whose name [Object.prototype] has, such
    as "constructor", [GET /api/accounts] answers [running: true] whether
    the registry has an entry under the name or not. *)
Theorem accounts_inherited_name (w : World) (i : nat) (c : Config.t) :
  configsArray w !! i = Some c ->
  inherited (Config.username c) = true ->
  exists l a,
    completion get_accounts w = Normal (AccountList l) /\
    l !! i = Some a /\
    Account.username a = Config.username c /\
    Account.running a = true.
Proof.
  intros Hc Hi. exists (account_view (bots w) <$> configsArray w).
  exists (account_view (bots w) c).
  split; [reflexivity|]. rewrite list_lookup_fmap, Hc. cbn.
  repeat split. apply bool_decide_eq_true_2, is_Some_property. now right.
Qed.

(** ** Insertions into the registry *)

#[local] Instance no_insert_preorder : PreOrder no_insert.
Proof.
  split.
  - intros w. split; [now right | reflexivity].
  - intros w1 w2 w3 [Ha La] [Hb Lb]. split; [|congruence].
    intros u. destruct (Hb u) as [H|H]; [now left|].
    rewrite H. apply Ha.
Qed.

Lemma no_insert_emit o : keeps no_insert (emit o).
Proof. intros w. split; cbn; [now right | reflexivity]. Qed.

Lemma no_insert_set_configsArray f : keeps no_insert (set_configsArray f).
Proof. intros w. split; cbn; [now right | reflexivity]. Qed.

Lemma no_insert_delete username : keeps no_insert (set_bots (delete username)).
Proof.
  intros w. split; cbn; [|reflexivity].
  intros u. destruct (decide (username = u)) as [->|Hne].
  - left. apply lookup_delete_eq.
  - right. now apply lookup_delete_ne.
Qed.

Lemma no_insert_update_bot h f : keeps no_insert (update_bot h f).
Proof.
  intros w. split; cbn; [now right|].
  destruct (heap w !! h); [apply length_insert | reflexivity].
Qed.

Ltac no_insert_prim :=
  first [ apply no_insert_emit
        | apply no_insert_set_configsArray
        | apply no_insert_delete
        | apply no_insert_update_bot ].

Lemma no_insert_stopBot env username : keeps no_insert (stopBot env username).
Proof. unfold stopBot, logOff_on, logOff, writeLog. frame_with no_insert_prim. Qed.

Lemma no_insert_serve env req :
  (forall username, req <> PostStart username) ->
  keeps no_insert (serve env req).
Proof.
  intros Hreq. pose proof (no_insert_stopBot env).
  destruct req; try (now exfalso; eapply Hreq); cbn;
    unfold get_accounts, post_stop, post_submit_guard,
      submitSteamGuardCode, post_add_account, put_edit_account,
      delete_account, saveConfig, writeLog;
    frame_with ltac:(first [no_insert_prim | auto]).
Qed.

Lemma no_insert_loadConfig r : keeps no_insert (loadConfig r).
Proof.
  unfold loadConfig, saveConfig, writeLog. frame_with no_insert_prim.
Qed.

Lemma no_insert_dispatch env h (ev : Event) :
  ev <> loggedOn -> keeps no_insert (dispatch env h ev).
Proof.
  intros Hev. unfold dispatch.
  apply keeps_bind; [apply _ | apply keeps_deref; apply _ | intros [c|]];
    [|apply keeps_ret; apply _].
  destruct ev; try contradiction;
    unfold on_error, unlink_settles, on_friendMessage,
      on_steamGuardRequested, on_disconnected, writeLog;
    frame_with no_insert_prim.
Qed.

Lemma no_insert_step env (w : World) (i : Input) :
  (forall username, i <> Http (PostStart username)) ->
  (forall h, i <> Emits h loggedOn) ->
  no_insert w (step env w i).
Proof.
  intros Hstart Hlogged. destruct i as [r | req | h ev | h pending].
  - apply (no_insert_loadConfig r).
  - unfold step, react. apply (keeps_bind no_insert).
    + apply no_insert_serve. intros u ->. now apply (Hstart u).
    + intros ?. apply keeps_ret. apply _.
  - apply (no_insert_dispatch env h ev). intros ->. now apply (Hlogged h).
  - apply (no_insert_update_bot h).
Qed.

Lemma find_username username (l : list Config.t) c :
  find username l = Some c -> Config.username c = username.
Proof.
  unfold find. destruct (list_find _ l) as [[i c']|] eqn:Hf; [|discriminate].
  intros [= <-]. apply list_find_Some in Hf. apply Hf.
Qed.

(** [POST /api/start], case by case. *)
Lemma step_post_start env (w : World) username :
  step env w (Http (PostStart username)) = w \/
  exists c,
    find username (configsArray w) = Some c /\
    Config.username c = username /\
    property (bots w) username = None /\
    step env w (Http (PostStart username)) = exec (startBot env c) w.
Proof.
  plumbing. unfold post_start. plumbing. cbv beta iota.
  destruct (find username (configsArray w)) as [c|] eqn:Hf; [|now left].
  destruct (property (bots w) username) as [b|] eqn:Hb; [now left | right].
  exists c. split; [reflexivity|].
  split; [now apply find_username in Hf|]. split; [reflexivity|].
  now destruct (startBot env c w) as [[[]|e] w'].
Qed.

(** The handler of [loggedOn], case by case. *)
Lemma step_loggedOn env (w : World) h :
  bots (step env w (Emits h loggedOn)) = bots w \/
  exists c,
    heap w !! h = Some c /\
    bots w !! Config.username (config c) = None /\
    bots (step env w (Emits h loggedOn))
      = <[Config.username (config c) := h]> (bots w).
Proof.
  unfold on_loggedOn. plumbing.
  destruct (heap w !! h) as [c|] eqn:Hh; cbn; [|now left].
  destruct (property (bots w) (Config.username (config c)))
    as [b|] eqn:Hb; cbn.
  - now left.
  - right. exists c. apply property_None in Hb as [Hb _]. now repeat split.
Qed.

Lemma heap_loggedOn env (w : World) h :
  heap (step env w (Emits h loggedOn)) = heap w.
Proof.
  unfold on_loggedOn. plumbing.
  destruct (heap w !! h) as [c|]; cbn; [|reflexivity].
  now destruct (bool_decide _).
Qed.

(** C9, counterexample.  "bob" is started and his bot is disconnected, which
    removes the entry; when the same bot logs on again, its [loggedOn]
    handler puts the entry back. *)
Lemma loggedOn_inserts :
  let w := run quiet initial disconnected_once in
  let w' := step quiet w (Emits 0 loggedOn) in
  reachable quiet w /\
  bots w !! "bob" = None /\
  bots w' !! "bob" = Some 0 /\
  ~ only_start_inserts quiet.
Proof.
  split; [now exists disconnected_once|].
  split; [reflexivity|]. split; [reflexivity|].
  intros H.
  destruct (H (run quiet initial disconnected_once) (Emits 0 loggedOn) "bob")
    as [Hi _].
  - now exists disconnected_once.
  - split; vm_compute; [eauto | discriminate].
  - discriminate Hi.
Qed.

Lemma no_insert_not_inserted (w w' : World) username :
  no_insert w w' -> ~ inserted w w' username.
Proof.
  intros [Hn _] [[h Hs] Hne]. destruct (Hn username) as [H|H]; congruence.
Qed.

(** C9, amended.  A step writes a registry entry only under a name that has
    none, and only in two ways: a start request, which builds a new bot and
    registers it, or the [loggedOn] handler of an existing bot, which
    registers that bot under the name of its account.  Bots are built by
    start requests only, for a name without an entry. *)
Theorem insertions_by_start_or_loggedOn (env : Env) (w : World) (i : Input) :
  let w' := step env w i in
  (forall username,
     inserted w w' username ->
     bots w !! username = None /\
     ((i = Http (PostStart username) /\
       bots w' !! username = Some (length (heap w)) /\
       length (heap w') = S (length (heap w))) \/
      (exists h c,
         i = Emits h loggedOn /\
         heap w !! h = Some c /\
         Config.username (config c) = username /\
         bots w' !! username = Some h /\
         heap w' = heap w))) /\
  (length (heap w') <> length (heap w) ->
   exists username c,
     i = Http (PostStart username) /\
     bots w !! username = None /\
     Config.username c = username /\
     heap w' = heap w ++ [{| config := c; bot := buildBot env c |}] /\
     bots w' !! username = Some (length (heap w))).
Proof.
  intros w'. subst w'.
  assert ((exists u, i = Http (PostStart u)) \/ (exists h, i = Emits h loggedOn)
          \/ no_insert w (step env w i)) as [[u ->] | [[h ->] | Hno]].
  { destruct i as [r | [] | h [] | h pending];
      try (right; right; apply no_insert_step; intros; discriminate);
      eauto. }
  - destruct (step_post_start env w u) as [-> | (c & Hf & Hu & Hb & ->)].
    { split; [intros username [_ Hne] | intros Hne]; congruence. }
    rewrite <- Hu in Hb. unfold exec. rewrite (startBot_fresh env c w Hb).
    cbn. rewrite Hu in *. apply property_None in Hb as [Hb _]. split.
    + intros username [_ Hne]. cbn in Hne.
      destruct (decide (u = username)) as [<-|Hdiff].
      * split; [exact Hb | left]. rewrite lookup_insert_eq, length_app.
        cbn. repeat split. lia.
      * now rewrite lookup_insert_ne in Hne.
    + intros _. exists u, c. rewrite lookup_insert_eq. now repeat split.
  - rewrite heap_loggedOn. split; [|congruence].
    intros username [_ Hne].
    destruct (step_loggedOn env w h) as [E | (c & Hh & Hb & E)];
      rewrite E in *; [congruence|].
    destruct (decide (Config.username (config c) = username)) as [<-|Hdiff].
    * split; [exact Hb | right]. exists h, c.
      rewrite lookup_insert_eq. now repeat split.
    * now rewrite lookup_insert_ne in Hne.
  - split.
    + intros username Hins. now apply no_insert_not_inserted in Hins.
    + intros Hne. now destruct Hno as [_ Hlen].
Qed.

(** ** Editing and deleting an account *)

Lemma merge_username (originalAccount : Config.t) (updatedData : Body.t) :
  Config.username (merge originalAccount updatedData)
  = Config.username originalAccount.
Proof. reflexivity. Qed.

(** C10.  For a configured account whose bot is in the registry,
    [PUT /api/edit-account] and [DELETE /api/delete-account] call [stopBot]
    before they save the account list: the whole stop sequence precedes the
    write of the configuration in the trace, and the registry has no entry
    under the name afterwards.  Editing replaces the account by the merge of
    the old values and the request body and leaves every [username] of the
    list as it was. *)
Theorem edit_and_delete_stop_the_bot (env : Env) (w : World)
    (username : string) (updatedData : Body.t)
    (accountIndex : nat) (originalAccount : Config.t) (h : handle) :
  let edited := exec (put_edit_account env username updatedData) w in
  let deleted := exec (delete_account env username) w in
  list_find (has_username username) (configsArray w)
    = Some (accountIndex, originalAccount) ->
  bots w !! username = Some h ->
  (bots edited = delete username (bots w) /\
   bots edited !! username = None /\
   configsArray edited
     = <[accountIndex := merge originalAccount updatedData]> (configsArray w) /\
   Config.username <$> configsArray edited
     = Config.username <$> configsArray w /\
   out edited =
     out w ++
     [Log ("[" +:+ username +:+
        "] Account edited. Stopping the bot to apply changes. Please restart manually.")] ++
     stop_trace env username h ++
     [WriteConfig (configsArray edited);
      Log ("[" +:+ username +:+ "] Account updated.");
      StatusUpdate]) /\
  (bots deleted = delete username (bots w) /\
   bots deleted !! username = None /\
   configsArray deleted = delete accountIndex (configsArray w) /\
   out deleted =
     out w ++
     stop_trace env username h ++
     [WriteConfig (configsArray deleted);
      Log ("[" +:+ username +:+ "] Account deleted.");
      StatusUpdate]).
Proof.
  intros edited deleted Hfind Hb. subst edited deleted. split.
  - unfold put_edit_account. plumbing. rewrite Hfind.
    cbn -[stopBot stop_trace property].
    rewrite (property_own _ _ _ Hb). cbn -[stopBot stop_trace].
    erewrite stopBot_running by exact Hb. cbn -[stop_trace].
    repeat split.
    + apply lookup_delete_eq.
    + rewrite list_fmap_insert, merge_username.
      apply list_insert_id. rewrite list_lookup_fmap.
      apply list_find_Some in Hfind as (Hi & _ & _). now rewrite Hi.
    + now rewrite <- !app_assoc.
  - unfold delete_account, findIndex. plumbing. rewrite Hfind.
    cbn -[stopBot stop_trace property].
    rewrite (property_own _ _ _ Hb). cbn -[stopBot stop_trace].
    erewrite stopBot_running by exact Hb. cbn -[stop_trace].
    repeat split.
    + apply lookup_delete_eq.
    + now rewrite <- !app_assoc.
Qed.

(** * The theorems on the scenarios of the spec *)

(** "dave" is running: an error "LoggedInElsewhere" keeps his entry, a
    disconnection deletes it. *)
Lemma removal_on_dave :
  bots (step quiet (started quiet "dave" "")
          (Emits 0 (error logged_in_elsewhere))) !! "dave" = Some 0 /\
  bots (step quiet (started quiet "dave" "")
          (Emits 0 (disconnected 3 "NoConnection"))) !! "dave" = None.
Proof.
  assert (heap (started quiet "dave" "") !! 0 = Some (first_bot quiet "dave" ""))
    as Hh by reflexivity.
  assert (bots (started quiet "dave" "")
            !! Config.username (config (first_bot quiet "dave" "")) = Some 0)
    as Hb by reflexivity.
  destruct (removal_on_error_and_disconnect quiet (started quiet "dave" "") 0
              (first_bot quiet "dave" "") logged_in_elsewhere 3 "NoConnection"
              Hh Hb) as (Helsewhere & _ & _ & Hdisconnected).
  split; [|exact Hdisconnected].
  apply Helsewhere. exists "Error: ", "". reflexivity.
Defined.

(** "carol" has a login key file whose deletion fails: the error
    [InvalidPassword] makes one deletion attempt, on that file. *)
Lemma deletion_attempt_on_carol :
  deletion_attempts
    (out (step failing (started failing "carol" "")
            (Emits 0 (error invalid_password))))
  = S (deletion_attempts (out (started failing "carol" ""))) /\
  In (Unlink "carol.key")
    (out (step failing (started failing "carol" "")
            (Emits 0 (error invalid_password)))).
Proof.
  assert (heap (started failing "carol" "") !! 0
          = Some (first_bot failing "carol" "")) as Hh by reflexivity.
  assert (Err.eresult invalid_password = Some InvalidPassword)
    as He by reflexivity.
  destruct (deletion_attempt_on_invalid_password failing
              (started failing "carol" "") 0 (first_bot failing "carol" "")
              invalid_password Hh He) as (Hkey & _).
  destruct (Hkey "carol.key" eq_refl eq_refl) as (Hone & Hin & _).
  split; [exact Hone | exact Hin].
Defined.

(** "alice" answers "hi": the first "hello" of "p1" is answered and recorded,
    and two of them leave one reply in the trace. *)
Lemma one_reply_from_alice :
  replies 0 "p1"
    (out (step quiet (started quiet "alice" "hi")
            (Emits 0 (friendMessage "p1" "hello")))) = 1 /\
  replies 0 "p1"
    (out (run quiet initial
            [Http (PostAddAccount (account "alice" "hi"));
             Http (PostStart "alice");
             Emits 0 (friendMessage "p1" "hello");
             Emits 0 (friendMessage "p1" "hello")])) <= 1.
Proof.
  destruct (at_most_one_reply quiet) as (Hrun & Hstep).
  split; [|apply Hrun].
  assert (heap (started quiet "alice" "hi") !! 0
          = Some (first_bot quiet "alice" "hi")) as Hh by reflexivity.
  destruct (Hstep (started quiet "alice" "hi") 0 (first_bot quiet "alice" "hi")
              "p1" "hello" Hh) as (Hsend & _).
  destruct (Hsend eq_refl eq_refl) as (Hone & _).
  exact Hone.
Defined.

(** An account named "constructor" is in the list and nothing is stored
    under the name: two calls of [startBot] leave the registry without an
    entry for it and build no bot. *)
Lemma start_of_constructor_twice :
  let c := with_defaults "constructor" "secret" (account "constructor" "") in
  let w := added quiet "constructor" "" in
  let w2 := exec (startBot quiet c) (exec (startBot quiet c) w) in
  find "constructor" (configsArray w) = Some c /\
  bots w !! "constructor" = None /\
  sessions_of "constructor" (bots w2) = 0 /\
  heap w2 = heap w /\
  out w2 = out w ++ [already_running "constructor";
                     already_running "constructor"].
Proof.
  intros c w w2.
  destruct (startBot_inherited_name quiet c w eq_refl eq_refl)
    as (_ & _ & Hsessions & _ & Hheap & Hout).
  split; [reflexivity | split; [reflexivity|]].
  split; [exact Hsessions | split; [exact Hheap | exact Hout]].
Defined.

(** Nothing is stored under "constructor": [stopBot] takes the stop path. *)
Lemma stop_of_constructor :
  let w := added quiet "constructor" "" in
  let w' := exec (stopBot quiet "constructor") w in
  bots w !! "constructor" = None /\
  bots w' = bots w /\
  out w' =
    out w ++
    [Log "[constructor] Stopping bot...";
     Log "[constructor] Error during logOff: bot.logOff is not a function";
     StatusUpdate;
     Log "[constructor] Bot stopped."].
Proof.
  intros w w'.
  destruct (stopBot_inherited_name quiet "constructor" w eq_refl eq_refl)
    as (_ & Hbots & _ & Hout).
  split; [reflexivity | split; [exact Hbots | exact Hout]].
Defined.

(** The account "constructor" was added and never started: it is listed as
    running. *)
Lemma constructor_is_listed_as_running :
  bots (added quiet "constructor" "") !! "constructor" = None /\
  exists l a,
    completion get_accounts (added quiet "constructor" "")
      = Normal (AccountList l) /\
    l !! 0 = Some a /\
    Account.username a = "constructor" /\
    Account.running a = true.
Proof.
  split; [reflexivity|].
  exact (accounts_inherited_name (added quiet "constructor" "") 0
           (with_defaults "constructor" "secret" (account "constructor" ""))
           eq_refl eq_refl).
Defined.

(** "alice" has answered "p1"; after a stop and a start her new bot, the
    object 1, answers "p1" again. *)
Lemma restart_of_alice :
  let w := step quiet (started quiet "alice" "hi")
             (Emits 0 (friendMessage "p1" "hello")) in
  let c := with_defaults "alice" "secret" (account "alice" "hi") in
  let w1 := exec (stopBot quiet "alice";; startBot quiet c) w in
  replies 0 "p1" (out w) = 1 /\
  bots w1 !! "alice" = Some 1 /\
  replies 1 "p1" (out (step quiet w1 (Emits 1 (friendMessage "p1" "hello"))))
  = S (replies 1 "p1" (out w1)).
Proof.
  intros w c w1.
  assert (inherited (Config.username c) = false) as Hname by reflexivity.
  assert (truthy (Config.replyMessage c) = true) as Hauto by reflexivity.
  destruct (restart_resets_replies quiet w c "p1" "hello" Hname Hauto)
    as (_ & Hentry & _ & _ & _ & Hfirst & _).
  split; [reflexivity | split; [exact Hentry | exact Hfirst]].
Defined.

(** "bob" waits for a Steam Guard code: the code is accepted. *)
Lemma guard_code_of_bob :
  completion (post_submit_guard "bob" "R2D2X")
    (step quiet (started quiet "bob" "") (Waiting 0 true))
  = Normal (Json 200 "Code submitted").
Proof.
  destruct (submit_guard_cases "bob" "R2D2X"
              (step quiet (started quiet "bob" "") (Waiting 0 true)))
    as ((Hpending & _) & _).
  apply Hpending.
  exists 0, {| config := config (first_bot quiet "bob" "");
               bot := set_waiting true (bot (first_bot quiet "bob" "")) |}.
  repeat split.
Defined.

(** Two account lists that differ in the password and the shared secret
    give the same answer. *)
Lemma same_answer_for_other_credentials :
  let c1 := Config.Make "erin" "secret" "" true [AppId 730] "hi" true false in
  let c2 := Config.Make "erin" "hunter2" "SGVsbG8=" true [AppId 730] "hi" true false in
  completion get_accounts
    {| bots := {["erin" := 0]}; configsArray := [c1]; heap := []; out := [] |}
  = completion get_accounts
    {| bots := {["erin" := 0]}; configsArray := [c2]; heap := []; out := [] |}.
Proof.
  intros c1 c2.
  destruct accounts_hide_credentials as (_ & Hsame).
  apply Hsame; [reflexivity|].
  constructor; [|constructor]. repeat split.
Defined.

(** The [loggedOn] event that re-registers "bob" finds no entry under his
    name. *)
Lemma reinsertion_of_bob :
  bots (run quiet initial disconnected_once) !! "bob" = None /\
  bots (step quiet (run quiet initial disconnected_once) (Emits 0 loggedOn))
    !! "bob" = Some 0.
Proof.
  destruct (insertions_by_start_or_loggedOn quiet
              (run quiet initial disconnected_once) (Emits 0 loggedOn))
    as (Hinsert & _).
  assert (inserted (run quiet initial disconnected_once)
            (step quiet (run quiet initial disconnected_once)
               (Emits 0 loggedOn)) "bob") as Hbob.
  { split; vm_compute; [eauto | discriminate]. }
  destruct (Hinsert "bob" Hbob) as (Hnone & _).
  split; [exact Hnone | reflexivity].
Defined.

(** "bob" is running and his [logOff] throws: editing his account, with a
    body that names another user, stops the bot and keeps the name. *)
Lemma edit_of_bob :
  let edited :=
    exec (put_edit_account failing "bob" (account "mallory" "away"))
      (started failing "bob" "") in
  bots edited !! "bob" = None /\
  Config.username <$> configsArray edited = ["bob"].
Proof.
  intros edited.
  assert (list_find (has_username "bob")
            (configsArray (started failing "bob" ""))
          = Some (0, with_defaults "bob" "secret" (account "bob" "")))
    as Hfind by reflexivity.
  assert (bots (started failing "bob" "") !! "bob" = Some 0)
    as Hb by reflexivity.
  destruct (edit_and_delete_stop_the_bot failing (started failing "bob" "")
              "bob" (account "mallory" "away") 0
              (with_defaults "bob" "secret" (account "bob" "")) 0 Hfind Hb)
    as ((_ & Hnone & _ & Hnames & _) & _).
  split; [exact Hnone | exact Hnames].
Defined.

(** * The rest of the module *)

(** ** What each route does, case by case *)

Lemma find_None username (l : list Config.t) :
  find username l = None <-> username ∉ usernames l.
Proof.
  unfold find, usernames. rewrite fmap_None, list_find_None, Forall_forall.
  rewrite list_elem_of_fmap. unfold has_username. split.
  - intros H (c & -> & Hc). now apply (H c).
  - intros H c Hc Hu. apply H. now exists c.
Qed.

Lemma Exists_has_username username (l : list Config.t) :
  Exists (has_username username) l <-> username ∈ usernames l.
Proof.
  unfold usernames. rewrite Exists_exists, list_elem_of_fmap.
  unfold has_username. split; intros (c & H1 & H2); exists c; auto.
Qed.

Lemma post_add_account_invalid (newAccount : Body.t) (w : World) :
  truthy_opt (Body.username newAccount)
  && truthy_opt (Body.password newAccount) = false ->
  post_add_account newAccount w
  = (Normal (Json 400 "Username and password are required"), w).
Proof.
  intros H. unfold post_add_account, truthy_opt in *.
  destruct (Body.username newAccount) as [u|],
           (Body.password newAccount) as [p|]; try reflexivity.
  now rewrite H.
Qed.

Lemma post_add_account_taken (newAccount : Body.t) (w : World) u p :
  Body.username newAccount = Some u -> Body.password newAccount = Some p ->
  truthy u = true -> truthy p = true ->
  u ∈ usernames (configsArray w) ->
  post_add_account newAccount w
  = (Normal (Json 409 "Account with this username already exists"), w).
Proof.
  intros Hu Hp Tu Tp Hin. unfold post_add_account. rewrite Hu, Hp, Tu, Tp.
  plumbing. cbn.
  rewrite bool_decide_eq_true_2 by now apply Exists_has_username.
  reflexivity.
Qed.

Lemma post_add_account_new (newAccount : Body.t) (w : World) u p :
  Body.username newAccount = Some u -> Body.password newAccount = Some p ->
  truthy u = true -> truthy p = true ->
  u ∉ usernames (configsArray w) ->
  post_add_account newAccount w
  = (Normal (Json 201 "Account added successfully"),
     {| bots := bots w;
        configsArray := configsArray w ++ [with_defaults u p newAccount];
        heap := heap w;
        out := out w ++
               [WriteConfig (configsArray w ++ [with_defaults u p newAccount]);
                Log ("[" +:+ u +:+ "] Account added.");
                StatusUpdate] |}).
Proof.
  intros Hu Hp Tu Tp Hin. unfold post_add_account. rewrite Hu, Hp, Tu, Tp.
  plumbing. cbn.
  rewrite bool_decide_eq_false_2 by now rewrite Exists_has_username.
  cbn. now rewrite <- !app_assoc.
Qed.

Lemma put_edit_account_missing env username updatedData (w : World) :
  list_find (has_username username) (configsArray w) = None ->
  put_edit_account env username updatedData w
  = (Normal (Json 404 "Account not found"), w).
Proof. intros H. unfold put_edit_account. plumbing. now rewrite H. Qed.

Lemma put_edit_account_found env username updatedData (w : World) i original :
  list_find (has_username username) (configsArray w) = Some (i, original) ->
  put_edit_account env username updatedData w
  = (Normal (Json 200
       "Account updated successfully. Restart the bot if it was running."),
     {| bots := delete username (bots w);
        configsArray := <[i := merge original updatedData]> (configsArray w);
        heap := heap w;
        out := out w ++
               match property (bots w) username with
               | Some bot =>
                   Log ("[" +:+ username +:+
                     "] Account edited. Stopping the bot to apply changes. Please restart manually.")
                   :: stop_outputs env username bot
               | None => []
               end ++
               [WriteConfig (<[i := merge original updatedData]> (configsArray w));
                Log ("[" +:+ username +:+ "] Account updated.");
                StatusUpdate] |}).
Proof.
  intros Hfind. unfold put_edit_account. plumbing. rewrite Hfind.
  cbn -[stopBot stop_outputs property].
  destruct (property (bots w) username) as [bot|] eqn:Hp;
    cbn -[stopBot stop_outputs property].
  - erewrite stopBot_truthy by exact Hp. cbn -[stop_outputs].
    now rewrite <- !app_assoc.
  - apply property_None in Hp as [Hb _].
    rewrite (delete_id _ _ Hb). now rewrite <- !app_assoc.
Qed.

Lemma delete_account_missing env username (w : World) :
  list_find (has_username username) (configsArray w) = None ->
  delete_account env username w = (Normal (Json 404 "Account not found"), w).
Proof.
  intros H. unfold delete_account, findIndex. plumbing. now rewrite H.
Qed.

Lemma delete_account_found env username (w : World) i original :
  list_find (has_username username) (configsArray w) = Some (i, original) ->
  delete_account env username w
  = (Normal (Json 200 "Account deleted successfully"),
     {| bots := delete username (bots w);
        configsArray := delete i (configsArray w);
        heap := heap w;
        out := out w ++
               match property (bots w) username with
               | Some bot => stop_outputs env username bot
               | None => []
               end ++
               [WriteConfig (delete i (configsArray w));
                Log ("[" +:+ username +:+ "] Account deleted.");
                StatusUpdate] |}).
Proof.
  intros Hfind. unfold delete_account, findIndex. plumbing. rewrite Hfind.
  cbn -[stopBot stop_outputs property].
  destruct (property (bots w) username) as [bot|] eqn:Hp;
    cbn -[stopBot stop_outputs property].
  - erewrite stopBot_truthy by exact Hp. cbn -[stop_outputs].
    now rewrite <- !app_assoc.
  - apply property_None in Hp as [Hb _].
    rewrite (delete_id _ _ Hb). now rewrite <- !app_assoc.
Qed.

Lemma post_stop_running env username (w : World) bot :
  property (bots w) username = Some bot ->
  post_stop env username w
  = (Normal (Json 200 "Stop command received"),
     {| bots := delete username (bots w);
        configsArray := configsArray w;
        heap := heap w;
        out := out w ++ stop_outputs env username bot |}).
Proof.
  intros Hp. unfold post_stop. plumbing. rewrite Hp.
  now rewrite (stopBot_truthy env username w bot Hp).
Qed.

Lemma post_stop_idle env username (w : World) :
  property (bots w) username = None ->
  post_stop env username w = (Normal (Json 400 "Bot not running"), w).
Proof. intros Hb. unfold post_stop. plumbing. now rewrite Hb. Qed.

Lemma post_start_missing env username (w : World) :
  find username (configsArray w) = None ->
  post_start env username w = (Normal (Json 404 "Account not found"), w).
Proof. intros H. unfold post_start. plumbing. now rewrite H. Qed.

Lemma post_start_running env username (w : World) c bot :
  find username (configsArray w) = Some c ->
  property (bots w) username = Some bot ->
  post_start env username w = (Normal (Json 400 "Bot already running"), w).
Proof. intros H Hb. unfold post_start. plumbing. now rewrite H, Hb. Qed.

Lemma post_start_idle env username (w : World) c :
  find username (configsArray w) = Some c ->
  property (bots w) username = None ->
  post_start env username w
  = (Normal (Json 200 "Start command received"),
     {| bots := <[username := length (heap w)]> (bots w);
        configsArray := configsArray w;
        heap := heap w ++ [{| config := c; bot := buildBot env c |}];
        out := out w ++
               [Log ("[" +:+ username +:+ "] Starting bot...");
                DoLogin (length (heap w)); StatusUpdate] |}).
Proof.
  intros H Hb. pose proof (find_username _ _ _ H) as Hu.
  unfold post_start. plumbing. rewrite H, Hb.
  rewrite <- Hu in Hb. rewrite (startBot_fresh env c w Hb). now rewrite Hu.
Qed.

(** ** Frame conditions of the whole module *)

(** As [frame_with], but tries the given lemmas before it looks into a
    computation. *)
Ltac frame_first prim :=
  repeat first
    [ solve [prim]
    | apply keeps_ret; solve [apply _]
    | apply keeps_get; solve [apply _]
    | apply keeps_running; solve [apply _]
    | apply keeps_deref; solve [apply _]
    | apply keeps_throw; solve [apply _]
    | apply keeps_bind; [solve [apply _] | | intros ?]
    | apply keeps_when; [solve [apply _] |]
    | apply keeps_try_catch_finally; [solve [apply _] | | intros ? |]
    | match goal with
      | |- keeps _ (match ?x with _ => _ end) => destruct x
      end ].

#[local] Instance same_configs_preorder : PreOrder same_configs.
Proof.
  split; [intros w; reflexivity|].
  intros w1 w2 w3 H1 H2. unfold same_configs in *. congruence.
Qed.

Lemma same_configs_emit o : keeps same_configs (emit o).
Proof. intros w. reflexivity. Qed.

Lemma same_configs_set_bots f : keeps same_configs (set_bots f).
Proof. intros w. reflexivity. Qed.

Lemma same_configs_new c : keeps same_configs (new c).
Proof. intros w. reflexivity. Qed.

Lemma same_configs_update_bot h f : keeps same_configs (update_bot h f).
Proof. intros w. reflexivity. Qed.

Ltac same_configs_prim :=
  first [ apply same_configs_emit
        | apply same_configs_set_bots
        | apply same_configs_new
        | apply same_configs_update_bot ].

Lemma same_configs_dispatch env h ev : keeps same_configs (dispatch env h ev).
Proof.
  unfold dispatch.
  apply keeps_bind; [apply _ | apply keeps_deref; apply _ | intros [c|]];
    [|apply keeps_ret; apply _].
  destruct ev;
    unfold on_loggedOn, on_error, unlink_settles, on_friendMessage,
      on_steamGuardRequested, on_disconnected, writeLog;
    frame_with same_configs_prim.
Qed.

Lemma same_configs_stopBot env username :
  keeps same_configs (stopBot env username).
Proof. unfold stopBot, logOff_on, logOff, writeLog. frame_with same_configs_prim. Qed.

Lemma same_configs_startBot env config :
  keeps same_configs (startBot env config).
Proof. unfold startBot, writeLog. frame_with same_configs_prim. Qed.

Lemma same_configs_serve env req :
  match req with
  | PostAddAccount _ | PutEditAccount _ _ | DeleteAccount _ => False
  | _ => True
  end ->
  keeps same_configs (serve env req).
Proof.
  intros Hreq. pose proof (same_configs_stopBot env).
  pose proof (same_configs_startBot env).
  destruct req; try contradiction; cbn;
    unfold get_accounts, post_start, post_stop, post_submit_guard,
      submitSteamGuardCode, writeLog;
    frame_first ltac:(first [same_configs_prim | auto]).
Qed.

#[local] Instance bot_kept_preorder guard : PreOrder (bot_kept guard).
Proof.
  split.
  - intros b. unfold bot_kept. tauto.
  - intros b1 b2 b3 (A1 & A2 & A3 & A4 & A5 & A6 & A7)
      (B1 & B2 & B3 & B4 & B5 & B6 & B7).
    unfold bot_kept. repeat split; try congruence; auto.
    intros Hg. rewrite (B7 Hg). auto.
Qed.

#[local] Instance bots_kept_preorder guard : PreOrder (bots_kept guard).
Proof.
  split.
  - intros w h c Hc. exists c. split; [exact Hc | split; reflexivity].
  - intros w1 w2 w3 H1 H2 h c Hc.
    destruct (H1 h c Hc) as (c2 & Hc2 & E2 & K2).
    destruct (H2 h c2 Hc2) as (c3 & Hc3 & E3 & K3).
    exists c3. split; [exact Hc3 | split; [congruence|]].
    etransitivity; eassumption.
Qed.

Lemma bots_kept_same_heap guard (w w' : World) :
  heap w' = heap w -> bots_kept guard w w'.
Proof.
  intros E h c Hc. exists c. rewrite E.
  split; [exact Hc | split; reflexivity].
Qed.

Lemma bots_kept_emit guard o : keeps (bots_kept guard) (emit o).
Proof. intros w. now apply bots_kept_same_heap. Qed.

Lemma bots_kept_set_bots guard f : keeps (bots_kept guard) (set_bots f).
Proof. intros w. now apply bots_kept_same_heap. Qed.

Lemma bots_kept_set_configsArray guard f :
  keeps (bots_kept guard) (set_configsArray f).
Proof. intros w. now apply bots_kept_same_heap. Qed.

Lemma bots_kept_new guard c : keeps (bots_kept guard) (new c).
Proof.
  intros w h c0 Hc0. exists c0. cbn. split; [|split; [reflexivity|]].
  - now apply lookup_app_l_Some.
  - reflexivity.
Qed.

Lemma bots_kept_update_bot guard h f :
  (forall b, bot_kept guard b (f b)) ->
  keeps (bots_kept guard) (update_bot h f).
Proof.
  intros Hf w h0 c0 Hc0. cbn.
  destruct (heap w !! h) as [c|] eqn:Hc.
  2:{ exists c0. split; [exact Hc0 | split; reflexivity]. }
  destruct (decide (h = h0)) as [->|Hne].
  - assert (c = c0) as -> by congruence.
    exists {| config := config c0; bot := f (bot c0) |}.
    split; [|split; [reflexivity | apply Hf]].
    apply list_lookup_insert_eq. eapply lookup_lt_Some, Hc0.
  - exists c0. rewrite list_lookup_insert_ne by done.
    split; [exact Hc0 | split; reflexivity].
Qed.

Lemma bot_kept_mark_replied guard steamID (b : Bot.t) :
  bot_kept guard b (mark_replied steamID b).
Proof.
  unfold bot_kept. repeat split; auto.
  intros p Hp. rewrite replied_mark_replied.
  now destruct (decide (steamID = p)).
Qed.

Lemma bot_kept_set_waiting pending (b : Bot.t) :
  bot_kept false b (set_waiting pending b).
Proof. unfold bot_kept. repeat split; auto. discriminate. Qed.

Ltac bots_kept_prim :=
  first [ apply bots_kept_emit
        | apply bots_kept_set_bots
        | apply bots_kept_set_configsArray
        | apply bots_kept_new
        | apply bots_kept_update_bot; apply bot_kept_mark_replied ].

Lemma bots_kept_react env guard (i : Input) :
  (guard = true -> forall h pending, i <> Waiting h pending) ->
  keeps (bots_kept guard) (react env i).
Proof.
  intros Hi. destruct i as [r | req | h ev | h pending]; cbn.
  - unfold loadConfig, saveConfig. destruct r; frame_with bots_kept_prim.
  - apply keeps_bind; [apply _ | | intros ?; apply keeps_ret; apply _].
    destruct req; cbn;
      unfold get_accounts, post_start, post_stop, post_submit_guard,
        submitSteamGuardCode, post_add_account, put_edit_account,
        delete_account, startBot, stopBot, logOff_on, logOff, saveConfig,
        writeLog;
      frame_with bots_kept_prim.
  - unfold dispatch.
    apply keeps_bind; [apply _ | apply keeps_deref; apply _ | intros [c|]];
      [|apply keeps_ret; apply _].
    destruct ev;
      unfold on_loggedOn, on_error, unlink_settles, on_friendMessage,
        on_steamGuardRequested, on_disconnected, writeLog;
      frame_with bots_kept_prim.
  - destruct guard.
    + exfalso. now apply (Hi eq_refl h pending).
    + apply bots_kept_update_bot. apply bot_kept_set_waiting.
Qed.

(** X3.  No reaction of the module rewrites a bot object it has built: the
    captured configuration, the name, the message flags, the reply text and
    the key path stay, and a recorded peer stays recorded, along every run.
    The flag [_waitingForGuard] is written by the bot alone. *)
Theorem bots_are_kept (env : Env) (w : World) :
  (forall inputs, bots_kept false w (run env w inputs)) /\
  (forall i,
     (forall h pending, i <> Waiting h pending) ->
     bots_kept true w (step env w i)).
Proof.
  split.
  - intros inputs. revert w.
    induction inputs as [|i inputs IH]; intros w; cbn; [reflexivity|].
    etransitivity; [|apply IH].
    apply (bots_kept_react env false i). discriminate.
  - intros i Hi. apply (bots_kept_react env true i). auto.
Qed.

(** ** Status updates *)

#[local] Instance notified_preorder : PreOrder notified.
Proof.
  split.
  - intros w. exists []. split; [now rewrite app_nil_r | now left].
  - intros w1 w2 w3 (n1 & E1 & H1) (n2 & E2 & H2). exists (n1 ++ n2).
    split; [now rewrite E2, E1, app_assoc|].
    rewrite in_app_iff.
    destruct H1 as [H1|H1], H2 as [H2|H2]; try tauto.
    left. congruence.
Qed.

Lemma notified_emit o : keeps notified (emit o).
Proof. intros w. exists [o]. split; [reflexivity | now left]. Qed.

Lemma notified_set_configsArray f : keeps notified (set_configsArray f).
Proof. intros w. exists []. cbn. split; [now rewrite app_nil_r | now left]. Qed.

Lemma notified_new c : keeps notified (new c).
Proof. intros w. exists []. cbn. split; [now rewrite app_nil_r | now left]. Qed.

Lemma notified_update_bot h f : keeps notified (update_bot h f).
Proof. intros w. exists []. cbn. split; [now rewrite app_nil_r | now left]. Qed.

Lemma notified_startBot env config : keeps notified (startBot env config).
Proof.
  intros w. unfold exec.
  destruct (property (bots w) (Config.username config)) as [b|] eqn:Hb.
  - rewrite (startBot_running env config w b Hb). eexists.
    split; [reflexivity | now left].
  - rewrite (startBot_fresh env config w Hb). eexists.
    split; [reflexivity | right; cbn; tauto].
Qed.

Lemma notified_stopBot env username : keeps notified (stopBot env username).
Proof.
  intros w. unfold exec.
  destruct (property (bots w) username) as [[h|]|] eqn:Hp.
  - apply property_Own in Hp.
    rewrite (stopBot_running env username w h Hp). eexists.
    split; [reflexivity | right].
    unfold stop_trace. rewrite !in_app_iff. cbn. tauto.
  - rewrite (stopBot_inherited env username w Hp). eexists.
    split; [reflexivity | right; cbn; tauto].
  - rewrite (stopBot_not_running env username w Hp). eexists.
    split; [reflexivity | now left].
Qed.

Lemma notified_on_loggedOn h c : keeps notified (on_loggedOn h c).
Proof.
  intros w. unfold on_loggedOn. plumbing.
  destruct (property (bots w) (Config.username (config c))); cbn;
    (eexists; split; [rewrite <- !app_assoc; reflexivity | right; cbn; tauto]).
Qed.

Lemma notified_on_disconnected h c eresult msg :
  keeps notified (on_disconnected h c eresult msg).
Proof.
  intros w. unfold on_disconnected. plumbing. cbn.
  eexists; split; [rewrite <- !app_assoc; reflexivity | right; cbn; tauto].
Qed.

Lemma notified_on_error env h c err : keeps notified (on_error env h c err).
Proof.
  unfold on_error.
  apply keeps_bind; [apply _ | | intros _].
  { destruct (isLoggedInElsewhere err); apply notified_emit. }
  apply keeps_bind; [apply _ | | intros _].
  { destruct (old_login_key c err);
      [apply notified_emit | apply keeps_ret; apply _]. }
  apply keeps_bind; [apply _ | apply keeps_running; apply _ | intros b].
  apply keeps_bind; [apply _ | | intros _].
  2:{ unfold unlink_settles.
      destruct (old_login_key c err); [|apply keeps_ret; apply _].
      destruct (unlink_rejects env _);
        [apply notified_emit | apply keeps_ret; apply _]. }
  apply keeps_when; [apply _|].
  intros w. plumbing. cbn.
  exists [StatusUpdate]. split; [reflexivity | right; cbn; tauto].
Qed.

Ltac notified_prim :=
  first [ apply notified_emit
        | apply notified_set_configsArray
        | apply notified_new
        | apply notified_update_bot
        | apply notified_startBot
        | apply notified_stopBot
        | apply notified_on_loggedOn
        | apply notified_on_disconnected
        | apply notified_on_error ].

Lemma notified_react env (i : Input) : keeps notified (react env i).
Proof.
  destruct i as [r | req | h ev | h pending]; cbn.
  - unfold loadConfig, saveConfig. destruct r; frame_first notified_prim.
  - apply keeps_bind; [apply _ | | intros ?; apply keeps_ret; apply _].
    destruct req; cbn;
      unfold get_accounts, post_start, post_stop, post_submit_guard,
        submitSteamGuardCode, post_add_account, put_edit_account,
        delete_account, saveConfig, writeLog;
      frame_first notified_prim.
  - unfold dispatch.
    apply keeps_bind; [apply _ | apply keeps_deref; apply _ | intros [c|]];
      [|apply keeps_ret; apply _].
    destruct ev; try solve [notified_prim];
      unfold on_friendMessage, on_steamGuardRequested, writeLog;
      frame_first notified_prim.
  - apply notified_update_bot.
Qed.

Lemma since_app (w w' : World) new :
  out w' = out w ++ new -> since w w' = new.
Proof. intros E. unfold since. rewrite E. apply drop_app_length. Qed.

(** X4.  A reaction only appends to the trace, and whenever it changes the
    registry it sends a [statusUpdate] to the observers. *)
Theorem registry_change_is_notified (env : Env) (w : World) (i : Input) :
  out (step env w i) = out w ++ since w (step env w i) /\
  (bots (step env w i) <> bots w ->
   In StatusUpdate (since w (step env w i))).
Proof.
  destruct (notified_react env i w) as (new & E & H).
  fold (step env w i) in E, H.
  rewrite (since_app _ _ _ E). split; [exact E|].
  intros Hne. destruct H as [H|H]; [contradiction | exact H].
Qed.

(** ** Exceptions *)

Lemma returns_ret {A} (a : A) : returns (ret a).
Proof. intros w. now exists a. Qed.

Lemma returns_get : returns get.
Proof. intros w. now exists w. Qed.

Lemma returns_running username : returns (running username).
Proof. intros w. now eexists. Qed.

Lemma returns_deref h : returns (deref h).
Proof. intros w. now eexists. Qed.

Lemma returns_emit o : returns (emit o).
Proof. intros w. now exists tt. Qed.

Lemma returns_set_bots f : returns (set_bots f).
Proof. intros w. now exists tt. Qed.

Lemma returns_set_configsArray f : returns (set_configsArray f).
Proof. intros w. now exists tt. Qed.

Lemma returns_new c : returns (new c).
Proof. intros w. now eexists. Qed.

Lemma returns_update_bot h f : returns (update_bot h f).
Proof. intros w. now exists tt. Qed.

Lemma returns_bind {A B} (m : M A) (k : A -> M B) :
  returns m -> (forall a, returns (k a)) -> returns (bind m k).
Proof.
  intros Hm Hk w. destruct (Hm w) as [a Ha].
  unfold completion, bind in *.
  destruct (m w) as [[a'|e] w1]; cbn in *; [|discriminate].
  apply Hk.
Qed.

Lemma returns_when (b : bool) (m : M unit) : returns m -> returns (when b m).
Proof. intros Hm. destruct b; [exact Hm | apply returns_ret]. Qed.

(** The body may throw: the handler and the final block decide. *)
Lemma returns_try_catch_finally body handler final :
  (forall e, returns (handler e)) -> returns final ->
  returns (try_catch_finally body handler final).
Proof.
  intros Hh Hf w. unfold completion, try_catch_finally.
  destruct (body w) as [[a|e] w1]; [apply Hf|].
  destruct (Hh e w1) as [a Ha]. unfold completion in Ha.
  destruct (handler e w1) as [[a'|e'] w2]; cbn in *; [apply Hf | discriminate].
Qed.

Ltac returns_tac :=
  repeat first
    [ apply returns_ret
    | apply returns_get
    | apply returns_running
    | apply returns_deref
    | apply returns_emit
    | apply returns_set_bots
    | apply returns_set_configsArray
    | apply returns_new
    | apply returns_update_bot
    | apply returns_bind; [| intros ?]
    | apply returns_when
    | apply returns_try_catch_finally; [intros ? |]
    | match goal with
      | |- returns (match ?x with _ => _ end) => destruct x
      end ].

Lemma returns_serve env req : returns (serve env req).
Proof.
  destruct req; cbn;
    unfold get_accounts, post_start, post_stop, post_submit_guard,
      submitSteamGuardCode, post_add_account, put_edit_account,
      delete_account, startBot, stopBot, saveConfig, writeLog;
    returns_tac.
Qed.

Lemma returns_react env i : returns (react env i).
Proof.
  destruct i as [r | req | h ev | h pending]; cbn.
  - unfold loadConfig, saveConfig. destruct r; returns_tac.
  - apply returns_bind; [apply returns_serve | intros ?; apply returns_ret].
  - unfold dispatch. apply returns_bind; [apply returns_deref|].
    intros [c|]; [|apply returns_ret].
    destruct ev;
      unfold on_loggedOn, on_error, unlink_settles, on_friendMessage,
        on_steamGuardRequested, on_disconnected, writeLog;
      returns_tac.
  - apply returns_update_bot.
Qed.

(** X6.  [bot.logOff()] may throw, but no request and no event makes the
    module throw: every route answers and every reaction completes. *)
Theorem module_never_throws (env : Env) :
  (forall h e w,
     logOff_throws env h = Some e ->
     completion (logOff env h) w = Throw e) /\
  (forall req w, exists answer,
     completion (serve env req) w = Normal answer) /\
  (forall i w, completion (react env i) w = Normal tt).
Proof.
  split; [|split].
  - intros h e w He. unfold logOff. plumbing. cbn. now rewrite He.
  - intros req w. apply returns_serve.
  - intros i w. destruct (returns_react env i w) as [[] H]. exact H.
Qed.

(** ** The registry refers to bots that exist *)

Lemma registry_sound_step env (w : World) (i : Input) :
  registry_sound w -> registry_sound (step env w i).
Proof.
  intros Hs.
  assert ((exists u, i = Http (PostStart u)) \/ (exists h, i = Emits h loggedOn)
          \/ no_insert w (step env w i)) as [[u ->] | [[h ->] | Hno]].
  { destruct i as [r | [] | h [] | h pending];
      try (right; right; apply no_insert_step; intros; discriminate);
      eauto. }
  - destruct (step_post_start env w u) as [-> | (c & Hf & Hu & Hb & ->)];
      [exact Hs|].
    rewrite <- Hu in Hb. unfold exec. rewrite (startBot_fresh env c w Hb).
    intros u' h'. cbn. rewrite Hu.
    destruct (decide (u = u')) as [<-|Hne].
    + rewrite lookup_insert_eq. intros [= <-].
      exists {| config := c; bot := buildBot env c |}. split; [|exact Hu].
      now rewrite lookup_app_r, Nat.sub_diag.
    + rewrite lookup_insert_ne by done. intros Hb'.
      destruct (Hs u' h' Hb') as (c' & Hc' & Hu').
      exists c'. split; [now apply lookup_app_l_Some | exact Hu'].
  - intros u' h'. rewrite heap_loggedOn.
    destruct (step_loggedOn env w h) as [-> | (c & Hh & Hb & ->)];
      [apply Hs|].
    destruct (decide (Config.username (config c) = u')) as [<-|Hne].
    + rewrite lookup_insert_eq. intros [= <-]. now exists c.
    + rewrite lookup_insert_ne by done. apply Hs.
  - intros u' h' Hb'. destruct Hno as [Hno _].
    destruct (Hno u') as [E|E]; [congruence|]. rewrite E in Hb'.
    destruct (Hs u' h' Hb') as (c & Hc & Hu).
    destruct (bots_kept_react env false i ltac:(discriminate) w h' c Hc)
      as (c' & Hc' & Ec & _).
    exists c'. split; [exact Hc' | congruence].
Qed.

(** X2.  In every state the module can reach, each entry of the registry
    refers to a bot object that exists, and that bot was built for the
    account under whose name it is registered. *)
Theorem registry_refers_to_bots (env : Env) (inputs : list Input) :
  registry_sound (run env initial inputs).
Proof.
  assert (forall w, registry_sound w -> registry_sound (run env w inputs))
    as H.
  { induction inputs as [|i inputs IH]; intros w Hs; cbn; [exact Hs|].
    apply IH, registry_sound_step, Hs. }
  apply H. intros u h Hb. cbn in Hb. now rewrite lookup_empty in Hb.
Qed.

(** ** Names that [Object.prototype] has *)

Lemma own_names_step env (w : World) (i : Input) :
  own_names w -> own_names (step env w i).
Proof.
  intros [Hheap Hbots].
  assert ((exists u, i = Http (PostStart u)) \/ (exists h, i = Emits h loggedOn)
          \/ no_insert w (step env w i)) as [[u ->] | [[h ->] | Hno]].
  { destruct i as [r | [] | h [] | h pending];
      try (right; right; apply no_insert_step; intros; discriminate);
      eauto. }
  - destruct (step_post_start env w u) as [-> | (c & Hf & Hu & Hb & ->)];
      [now split|].
    rewrite <- Hu in Hb. unfold exec. rewrite (startBot_fresh env c w Hb).
    apply property_None in Hb as [_ Hi]. cbn. split.
    + intros h c' [Hc' | [_ Hc']]%lookup_app_Some; [now apply (Hheap h)|].
      apply list_lookup_singleton_Some in Hc' as [_ <-]. exact Hi.
    + intros u' h'. cbn.
      destruct (decide (Config.username c = u')) as [<-|Hne]; [now intros _|].
      rewrite lookup_insert_ne by done. apply Hbots.
  - split; [now rewrite heap_loggedOn|].
    destruct (step_loggedOn env w h) as [-> | (c & Hh & Hb & ->)];
      [exact Hbots|].
    intros u' h'.
    destruct (decide (Config.username (config c) = u')) as [<-|Hne].
    + intros _. now apply (Hheap h).
    + rewrite lookup_insert_ne by done. apply Hbots.
  - destruct Hno as [Hno Hlen]. split.
    + intros h c' Hc'.
      assert (h < length (heap w)) as Hlt
        by (rewrite <- Hlen; eapply lookup_lt_Some, Hc').
      destruct (lookup_lt_is_Some_2 (heap w) h Hlt) as [c Hc].
      destruct (bots_kept_react env false i ltac:(discriminate) w h c Hc)
        as (c'' & Hc'' & Ec & _).
      fold (step env w i) in Hc''. rewrite Hc' in Hc''.
      injection Hc'' as <-. rewrite Ec. now apply (Hheap h).
    + intros u' h' Hb'. destruct (Hno u') as [E|E]; [congruence|].
      rewrite E in Hb'. now apply (Hbots u' h').
Qed.

Lemma own_names_run env (inputs : list Input) (w : World) :
  own_names w -> own_names (run env w inputs).
Proof.
  revert w. induction inputs as [|i inputs IH]; intros w Hw; cbn; [exact Hw|].
  apply IH, own_names_step, Hw.
Qed.

Lemma own_names_initial : own_names initial.
Proof.
  split.
  - intros h c Hc. cbn in Hc. now rewrite lookup_nil in Hc.
  - intros u h Hb. cbn in Hb. now rewrite lookup_empty in Hb.
Qed.

(** In a state the module can reach, the name of every bot that was built,
    and every name under which the registry has an entry, is a name that
    [Object.prototype] does not have. *)
Lemma built_not_inherited env (w : World) :
  reachable env w ->
  (forall h c,
     heap w !! h = Some c -> inherited (Config.username (config c)) = false) /\
  (forall username h, bots w !! username = Some h -> inherited username = false).
Proof.
  intros [inputs ->]. apply (own_names_run env inputs), own_names_initial.
Qed.

(** X21.  An account whose name [Object.prototype] has, such as
    "constructor", can be added to the list, but it never runs: whatever the
    module has been sent, the registry has no entry under the name, no bot
    was built for it, [bots[username]] is the inherited value, and a start
    request for it is refused and changes nothing. *)
Theorem prototype_names_never_run (env : Env) (inputs : list Input)
    (username : string) :
  let w := run env initial inputs in
  inherited username = true ->
  bots w !! username = None /\
  (forall h c, heap w !! h = Some c -> Config.username (config c) <> username)
  /\
  property (bots w) username = Some Inherited /\
  exec (post_start env username) w = w /\
  (completion (post_start env username) w
     = Normal (Json 404 "Account not found") \/
   completion (post_start env username) w
     = Normal (Json 400 "Bot already running")).
Proof.
  intros w Hi.
  destruct (own_names_run env inputs initial own_names_initial)
    as [Hheap Hbots]. fold w in Hheap, Hbots.
  assert (bots w !! username = None) as Hnone.
  { destruct (bots w !! username) as [h|] eqn:Hb; [|reflexivity].
    apply Hbots in Hb. congruence. }
  pose proof (property_inherited _ _ Hnone Hi) as Hp.
  split; [exact Hnone|]. split; [|split; [exact Hp|]].
  - intros h c Hc <-. apply Hheap in Hc. congruence.
  - unfold exec, completion.
    destruct (find username (configsArray w)) as [c|] eqn:Hf.
    + rewrite (post_start_running env username w c Inherited Hf Hp). auto.
    + rewrite (post_start_missing env username w Hf). auto.
Qed.

(** ** The account list *)

Lemma find_cons username (x : Config.t) (l : list Config.t) :
  find username (x :: l)
  = if decide (Config.username x = username) then Some x
    else find username l.
Proof.
  unfold find. cbn. unfold has_username_dec.
  destruct (decide (Config.username x = username)); [reflexivity|].
  now destruct (list_find _ l) as [[i y]|].
Qed.

#[local] Arguments find : simpl never.

Lemma find_app_new username (x : Config.t) (l : list Config.t) :
  username ∉ usernames l -> Config.username x = username ->
  find username (l ++ [x]) = Some x.
Proof.
  intros Hnot Hx. induction l as [|y l IH]; cbn [app].
  - rewrite find_cons. now rewrite decide_True.
  - rewrite find_cons. unfold usernames in *. cbn in Hnot.
    apply not_elem_of_cons in Hnot as [Hy Hl].
    rewrite decide_False by congruence. now apply IH.
Qed.

Lemma find_app_other other (x : Config.t) (l : list Config.t) :
  Config.username x <> other -> find other (l ++ [x]) = find other l.
Proof.
  intros Hx. induction l as [|y l IH]; cbn [app].
  - rewrite find_cons. now rewrite decide_False.
  - rewrite !find_cons. now destruct (decide _).
Qed.

Lemma find_delete_other other (l : list Config.t) i x :
  l !! i = Some x -> Config.username x <> other ->
  find other (delete i l) = find other l.
Proof.
  revert i. induction l as [|y l IH]; intros [|i] Hi Hx; try discriminate.
  - cbn in Hi. injection Hi as ->. cbn. rewrite find_cons.
    now rewrite decide_False.
  - cbn in *. rewrite !find_cons. destruct (decide _); [reflexivity|].
    now apply (IH i).
Qed.

Lemma find_insert_other other (l : list Config.t) i x y :
  l !! i = Some x -> Config.username x <> other ->
  Config.username y <> other ->
  find other (<[i := y]> l) = find other l.
Proof.
  revert i. induction l as [|z l IH]; intros [|i] Hi Hx Hy; try discriminate.
  - cbn in Hi. injection Hi as ->. cbn. rewrite !find_cons.
    now rewrite !decide_False.
  - cbn in *. rewrite !find_cons. destruct (decide _); [reflexivity|].
    now apply (IH i).
Qed.

Lemma find_insert_first username (l : list Config.t) i x y :
  list_find (has_username username) l = Some (i, x) ->
  Config.username y = username ->
  find username (<[i := y]> l) = Some y.
Proof.
  intros Hfind Hy. apply list_find_Some in Hfind as (Hi & _ & Hfirst).
  revert i Hi Hfirst.
  induction l as [|z l IH]; intros [|i] Hi Hfirst; try discriminate.
  - cbn. rewrite find_cons. now rewrite decide_True.
  - cbn in *. rewrite find_cons.
    rewrite decide_False by (apply (Hfirst 0 z); [reflexivity | lia]).
    apply (IH i Hi). intros j y' Hj Hlt. apply (Hfirst (S j) y' Hj). lia.
Qed.

Lemma usernames_delete_name (l : list Config.t) i x :
  NoDup (usernames l) -> l !! i = Some x ->
  Config.username x ∉ usernames (delete i l).
Proof.
  unfold usernames. revert i.
  induction l as [|z l IH]; intros [|i] Hnd Hi; try discriminate;
    cbn in *; apply NoDup_cons in Hnd as [Hz Hnd].
  - now injection Hi as ->.
  - apply not_elem_of_cons. split; [|now apply IH].
    intros E. apply Hz. rewrite <- E.
    apply list_elem_of_fmap. exists x.
    split; [reflexivity | now apply list_elem_of_lookup_2 in Hi].
Qed.

Lemma usernames_insert_merge (l : list Config.t) i original updatedData :
  l !! i = Some original ->
  usernames (<[i := merge original updatedData]> l) = usernames l.
Proof.
  intros Hi. unfold usernames. rewrite list_fmap_insert, merge_username.
  apply list_insert_id. now rewrite list_lookup_fmap, Hi.
Qed.

Lemma last_saved_app (l1 l2 : list Output) :
  last_saved (l1 ++ l2)
  = match last_saved l2 with
    | Some configs => Some configs
    | None => last_saved l1
    end.
Proof.
  induction l1 as [|o l1 IH]; cbn.
  - now destruct (last_saved l2).
  - rewrite IH. now destruct (last_saved l2).
Qed.

Lemma truthy_opt_true (o : option string) :
  truthy_opt o = true -> exists s, o = Some s /\ truthy s = true.
Proof. destruct o as [s|]; [eauto | discriminate]. Qed.

(** X9.  [POST /api/add-account] refuses a body without a non-empty
    [username] and [password] (400) and a name that is taken (409), and
    changes nothing then.  Otherwise it appends the account with its
    defaults, saves the list and answers 201: the account is then found
    under its name, the lookup of every other name is as before, and the
    registry and the bots are untouched. *)
Theorem add_account_cases (newAccount : Body.t) (w : World) :
  let answer := completion (post_add_account newAccount) w in
  let w' := exec (post_add_account newAccount) w in
  (truthy_opt (Body.username newAccount)
   && truthy_opt (Body.password newAccount) = false ->
   answer = Normal (Json 400 "Username and password are required") /\
   w' = w) /\
  (forall u p,
     Body.username newAccount = Some u -> Body.password newAccount = Some p ->
     truthy u = true -> truthy p = true ->
     (u ∈ usernames (configsArray w) ->
      answer = Normal (Json 409 "Account with this username already exists")
      /\ w' = w) /\
     (u ∉ usernames (configsArray w) ->
      answer = Normal (Json 201 "Account added successfully") /\
      configsArray w' = configsArray w ++ [with_defaults u p newAccount] /\
      find u (configsArray w') = Some (with_defaults u p newAccount) /\
      (forall other,
         other <> u ->
         find other (configsArray w') = find other (configsArray w)) /\
      last_saved (out w') = Some (configsArray w') /\
      bots w' = bots w /\
      heap w' = heap w)).
Proof.
  intros answer w'. subst answer w'. unfold completion, exec. split.
  - intros H. now rewrite (post_add_account_invalid newAccount w H).
  - intros u p Hu Hp Tu Tp. split; intros Hin.
    + now rewrite (post_add_account_taken newAccount w u p Hu Hp Tu Tp Hin).
    + rewrite (post_add_account_new newAccount w u p Hu Hp Tu Tp Hin). cbn.
      repeat split.
      * now apply find_app_new.
      * intros other Hne. apply find_app_other. cbn. congruence.
      * now rewrite last_saved_app.
Qed.

(** X11.  [DELETE /api/delete-account] answers 404 and changes nothing for a
    name that is not in the list.  For a name that is, it removes the first
    account of that name and the registry entry of the name; every other
    name keeps its account and its registry entry, the saved list is the new
    one, and when the names of the list are distinct the name is no longer
    found. *)
Theorem delete_account_cases (env : Env) (username : string) (w : World) :
  let answer := completion (delete_account env username) w in
  let w' := exec (delete_account env username) w in
  (find username (configsArray w) = None ->
   answer = Normal (Json 404 "Account not found") /\ w' = w) /\
  (forall i original,
     list_find (has_username username) (configsArray w) = Some (i, original) ->
     answer = Normal (Json 200 "Account deleted successfully") /\
     configsArray w' = delete i (configsArray w) /\
     S (length (configsArray w')) = length (configsArray w) /\
     bots w' !! username = None /\
     (forall other,
        other <> username ->
        find other (configsArray w') = find other (configsArray w) /\
        bots w' !! other = bots w !! other) /\
     last_saved (out w') = Some (configsArray w') /\
     heap w' = heap w /\
     (NoDup (usernames (configsArray w)) ->
      find username (configsArray w') = None)).
Proof.
  intros answer w'. subst answer w'. unfold completion, exec. split.
  - intros H. unfold find in H. apply fmap_None in H.
    now rewrite (delete_account_missing env username w H).
  - intros i original Hfind.
    rewrite (delete_account_found env username w i original Hfind). cbn.
    pose proof Hfind as (Hi & Hname & _)%list_find_Some.
    repeat split.
    + rewrite length_delete by eauto.
      apply lookup_lt_Some in Hi. lia.
    + apply lookup_delete_eq.
    + apply (find_delete_other other _ i original Hi).
      unfold has_username in Hname. congruence.
    + now apply lookup_delete_ne.
    + rewrite app_assoc. now rewrite last_saved_app.
    + intros Hnd. apply find_None. rewrite <- Hname.
      now apply usernames_delete_name.
Qed.

(** X12.  [PUT /api/edit-account] answers 404 and changes nothing for a name
    that is not in the list.  For a name that is, it replaces the first
    account of that name by the merge of the account and the body: the names
    of the list are as before, the name now finds the merged account, every
    other name finds what it found, and the saved list is the new one.  The
    bot objects built so far are not touched, and an empty body leaves the
    list as it was. *)
Theorem edit_account_cases (env : Env) (username : string)
    (updatedData : Body.t) (w : World) :
  let answer := completion (put_edit_account env username updatedData) w in
  let w' := exec (put_edit_account env username updatedData) w in
  (find username (configsArray w) = None ->
   answer = Normal (Json 404 "Account not found") /\ w' = w) /\
  (forall i original,
     list_find (has_username username) (configsArray w) = Some (i, original) ->
     answer = Normal (Json 200
       "Account updated successfully. Restart the bot if it was running.") /\
     configsArray w'
       = <[i := merge original updatedData]> (configsArray w) /\
     usernames (configsArray w') = usernames (configsArray w) /\
     find username (configsArray w') = Some (merge original updatedData) /\
     (forall other,
        other <> username ->
        find other (configsArray w') = find other (configsArray w) /\
        bots w' !! other = bots w !! other) /\
     last_saved (out w') = Some (configsArray w') /\
     heap w' = heap w /\
     (updatedData = no_field -> configsArray w' = configsArray w)).
Proof.
  intros answer w'. subst answer w'. unfold completion, exec. split.
  - intros H. unfold find in H. apply fmap_None in H.
    now rewrite (put_edit_account_missing env username updatedData w H).
  - intros i original Hfind.
    rewrite (put_edit_account_found env username updatedData w i original
               Hfind). cbn.
    pose proof Hfind as (Hi & Hname & _)%list_find_Some.
    unfold has_username in Hname.
    repeat split.
    + now apply usernames_insert_merge.
    + now apply (find_insert_first username _ i original).
    + apply (find_insert_other other _ i original); cbn; congruence.
    + now apply lookup_delete_ne.
    + rewrite app_assoc. now rewrite last_saved_app.
    + intros ->. apply list_insert_id. rewrite Hi. now destruct original.
Qed.

Lemma step_http env (w : World) req :
  step env w (Http req) = exec (serve env req) w.
Proof.
  unfold step, exec, react, bind, ret.
  now destruct (serve env req w) as [[r|e] w'].
Qed.

Lemma post_add_account_either (newAccount : Body.t) (w : World) :
  (exists status message,
     (post_add_account newAccount w = (Normal (Json status message), w)) /\
     (400 <= status)) \/
  (exists u p,
     (u ∉ usernames (configsArray w)) /\
     post_add_account newAccount w
     = (Normal (Json 201 "Account added successfully"),
        {| bots := bots w;
           configsArray := configsArray w ++ [with_defaults u p newAccount];
           heap := heap w;
           out := out w ++
                  [WriteConfig
                     (configsArray w ++ [with_defaults u p newAccount]);
                   Log ("[" +:+ u +:+ "] Account added.");
                   StatusUpdate] |})).
Proof.
  destruct (truthy_opt (Body.username newAccount)
            && truthy_opt (Body.password newAccount)) eqn:Hvalid.
  2:{ left. do 2 eexists.
      split; [now apply post_add_account_invalid | lia]. }
  apply andb_true_iff in Hvalid as [Hu Hp].
  apply truthy_opt_true in Hu as (u & Hu & Tu).
  apply truthy_opt_true in Hp as (p & Hp & Tp).
  destruct (decide (u ∈ usernames (configsArray w))) as [Hin|Hin].
  - left. do 2 eexists.
    split; [now apply (post_add_account_taken newAccount w u p) | lia].
  - right. exists u, p.
    split; [exact Hin | now apply post_add_account_new].
Qed.

Lemma usernames_app_new (l : list Config.t) (x : Config.t) :
  NoDup (usernames l) -> Config.username x ∉ usernames l ->
  NoDup (usernames (l ++ [x])).
Proof.
  intros Hnd Hx. unfold usernames in *. rewrite fmap_app. cbn.
  apply NoDup_app. split; [exact Hnd | split; [|apply NoDup_singleton]].
  intros u Hu ->%list_elem_of_singleton. contradiction.
Qed.

Lemma distinct_step env (w : World) (i : Input) :
  distinct_on_load i ->
  NoDup (usernames (configsArray w)) ->
  NoDup (usernames (configsArray (step env w i))).
Proof.
  intros Hload Hnd. destruct i as [r | req | h ev | h pending].
  - destruct r as [data| |]; cbn in *; [exact Hload | constructor..].
  - rewrite step_http. destruct req as [ | u | u | u code | b | u b | u ];
      try (match goal with
           | |- context [serve env ?r] =>
               rewrite (same_configs_serve env r I w)
           end; exact Hnd);
      cbn [serve].
    + destruct (post_add_account_either b w)
        as [(st & msg & E & _) | (u & p & Hu & E)];
        unfold exec; rewrite E; cbn; [exact Hnd|].
      now apply usernames_app_new.
    + destruct (list_find (has_username u) (configsArray w))
        as [[i o]|] eqn:Hfind; unfold exec.
      * rewrite (put_edit_account_found env u b w i o Hfind). cbn.
        apply list_find_Some in Hfind as (Hi & _).
        now rewrite usernames_insert_merge.
      * now rewrite (put_edit_account_missing env u b w Hfind).
    + destruct (list_find (has_username u) (configsArray w))
        as [[i o]|] eqn:Hfind; unfold exec.
      * rewrite (delete_account_found env u w i o Hfind). cbn.
        unfold usernames in *. rewrite list_fmap_delete.
        eapply sublist_NoDup; [exact Hnd | apply sublist_delete].
      * now rewrite (delete_account_missing env u w Hfind).
  - unfold step, react. now rewrite (same_configs_dispatch env h ev w).
  - exact Hnd.
Qed.

(** X1.  As long as the file read at start-up names no account twice, the
    account list never names an account twice, whatever is requested. *)
Theorem account_names_stay_distinct (env : Env) (inputs : list Input) :
  Forall distinct_on_load inputs ->
  NoDup (usernames (configsArray (run env initial inputs))).
Proof.
  assert (forall w, Forall distinct_on_load inputs ->
                    NoDup (usernames (configsArray w)) ->
                    NoDup (usernames (configsArray (run env w inputs)))) as H.
  { induction inputs as [|i inputs IH]; intros w Hall Hnd; cbn; [exact Hnd|].
    apply Forall_cons in Hall as [Hi Hall].
    apply IH; [exact Hall | now apply distinct_step]. }
  intros Hall. apply H; [exact Hall | constructor].
Qed.

(** X14.  The account list in memory changes in three ways only: it is read
    from the file, it is reset when the file cannot be read, or it is changed
    by a request, and then the list written last is the new list. *)
Theorem account_list_is_saved (env : Env) (w : World) (i : Input) :
  let w' := step env w i in
  (exists data, i = Listening (Parsed data)) \/
  i = Listening Failed \/
  configsArray w' = configsArray w \/
  last_saved (out w') = Some (configsArray w').
Proof.
  intros w'. subst w'. destruct i as [r | req | h ev | h pending].
  - destruct r as [data| |]; [left; eauto | | now right; left].
    right; right; right. cbn. now rewrite last_saved_app.
  - right; right. rewrite step_http.
    destruct req as [ | u | u | u code | b | u b | u ];
      try (left;
           match goal with
           | |- context [serve env ?r] => apply (same_configs_serve env r I w)
           end);
      cbn [serve].
    + destruct (post_add_account_either b w)
        as [(st & msg & E & _) | (u & p & Hu & E)];
        unfold exec; rewrite E; cbn; [now left | right].
      now rewrite last_saved_app.
    + destruct (list_find (has_username u) (configsArray w))
        as [[i o]|] eqn:Hfind; unfold exec.
      * rewrite (put_edit_account_found env u b w i o Hfind). cbn. right.
        rewrite app_assoc. now rewrite last_saved_app.
      * rewrite (put_edit_account_missing env u b w Hfind). now left.
    + destruct (list_find (has_username u) (configsArray w))
        as [[i o]|] eqn:Hfind; unfold exec.
      * rewrite (delete_account_found env u w i o Hfind). cbn. right.
        rewrite app_assoc. now rewrite last_saved_app.
      * rewrite (delete_account_missing env u w Hfind). now left.
  - right; right; left. unfold step, react.
    apply (same_configs_dispatch env h ev w).
  - right; right; left. reflexivity.
Qed.

(** ** Requests that are refused *)

Lemma post_submit_guard_either (username code : string) (w : World) :
  post_submit_guard username code w
  = (Normal (Json 400 no_guard_pending), w) \/
  (exists h,
     post_submit_guard username code w
     = (Normal (Json 200 "Code submitted"),
        {| bots := bots w;
           configsArray := configsArray w;
           heap := heap w;
           out := out w ++
                  [SubmitSteamGuardCode h code;
                   Log ("[" +:+ username +:+
                        "] Steam Guard code submitted.")] |})).
Proof.
  unfold post_submit_guard, submitSteamGuardCode. plumbing.
  destruct (property (bots w) username) as [[h|]|]; [|now left..].
  destruct (heap w !! h) as [c|]; [|now left].
  destruct (Bot._waitingForGuard (bot c)); [right | now left].
  exists h. cbn. now rewrite <- app_assoc.
Qed.

(** X5.  A request that is answered with an error status (400, 404 or 409)
    has changed nothing: no account, no registry entry, no bot, and not a
    line of the trace. *)
Theorem rejections_change_nothing (env : Env) (req : Request) (w : World)
    (answer : Response) :
  completion (serve env req) w = Normal answer ->
  is_rejection answer ->
  exec (serve env req) w = w.
Proof.
  unfold completion, exec.
  destruct req as [ | u | u | u code | b | u b | u ]; cbn [serve].
  - unfold get_accounts. plumbing. cbn. intros [= <-] [].
  - destruct (find u (configsArray w)) as [c|] eqn:Hf.
    2:{ now rewrite (post_start_missing env u w Hf). }
    destruct (property (bots w) u) as [bot|] eqn:Hb.
    + now rewrite (post_start_running env u w c bot Hf Hb).
    + rewrite (post_start_idle env u w c Hf Hb). cbn.
      intros [= <-] H. cbn in H. lia.
  - destruct (property (bots w) u) as [bot|] eqn:Hb.
    + rewrite (post_stop_running env u w bot Hb). cbn.
      intros [= <-] H. cbn in H. lia.
    + now rewrite (post_stop_idle env u w Hb).
  - destruct (post_submit_guard_either u code w) as [E | (h & E)];
      rewrite E; cbn; [reflexivity|].
    intros [= <-] H. cbn in H. lia.
  - destruct (post_add_account_either b w)
      as [(st & msg & E & _) | (u & p & _ & E)]; rewrite E; cbn;
      [reflexivity|].
    intros [= <-] H. cbn in H. lia.
  - destruct (list_find (has_username u) (configsArray w))
      as [[i o]|] eqn:Hfind.
    + rewrite (put_edit_account_found env u b w i o Hfind). cbn.
      intros [= <-] H. cbn in H. lia.
    + now rewrite (put_edit_account_missing env u b w Hfind).
  - destruct (list_find (has_username u) (configsArray w))
      as [[i o]|] eqn:Hfind.
    + rewrite (delete_account_found env u w i o Hfind). cbn.
      intros [= <-] H. cbn in H. lia.
    + now rewrite (delete_account_missing env u w Hfind).
Qed.

(** ** Starting and stopping through the routes *)

(** X7.  [POST /api/start] answers 404 for a name that is not in the list.
    For a name that is, it answers 400 when [bots[username]] is truthy, that
    is when the registry has an entry under the name or the name is a
    property of [Object.prototype] (such an account can never be started),
    and changes nothing then.  Otherwise it answers 200 and has started the
    first account of that name: a new bot object, built from that account,
    is logged in and registered under the name. *)
Theorem start_request_cases (env : Env) (username : string) (w : World) :
  let answer := completion (post_start env username) w in
  let w' := exec (post_start env username) w in
  (find username (configsArray w) = None ->
   answer = Normal (Json 404 "Account not found") /\ w' = w) /\
  (forall c,
     find username (configsArray w) = Some c ->
     is_Some (bots w !! username) \/ inherited username = true ->
     answer = Normal (Json 400 "Bot already running") /\ w' = w) /\
  (forall c,
     find username (configsArray w) = Some c ->
     bots w !! username = None ->
     inherited username = false ->
     answer = Normal (Json 200 "Start command received") /\
     Config.username c = username /\
     heap w' = heap w ++ [{| config := c; bot := buildBot env c |}] /\
     bots w' = <[username := length (heap w)]> (bots w) /\
     configsArray w' = configsArray w /\
     out w' = out w ++
              [Log ("[" +:+ username +:+ "] Starting bot...");
               DoLogin (length (heap w)); StatusUpdate]).
Proof.
  intros answer w'. subst answer w'. unfold completion, exec.
  split; [|split].
  - intros Hf. now rewrite (post_start_missing env username w Hf).
  - intros c Hf [bot Hp]%is_Some_property.
    now rewrite (post_start_running env username w c bot Hf Hp).
  - intros c Hf Hb Hi.
    rewrite (post_start_idle env username w c Hf (property_None_2 _ _ Hb Hi)).
    cbn. repeat split. now apply find_username in Hf.
Qed.

(** X8.  For a name that [Object.prototype] does not have, [POST /api/stop]
    answers 400 and changes nothing when the name has no registry entry.
    After a start request that was accepted, a stop request is accepted too,
    even when [logOff] throws, and the registry and the account list are what
    they were before the start; the bot that was built is logged in, then
    logged off. *)
Theorem stop_request_undoes_start (env : Env) (username : string)
    (w : World) (c : Config.t) :
  let h := length (heap w) in
  let w1 := step env w (Http (PostStart username)) in
  let w2 := step env w1 (Http (PostStop username)) in
  find username (configsArray w) = Some c ->
  bots w !! username = None ->
  inherited username = false ->
  completion (post_stop env username) w = Normal (Json 400 "Bot not running")
  /\ exec (post_stop env username) w = w /\
  completion (post_stop env username) w1
    = Normal (Json 200 "Stop command received") /\
  bots w2 = bots w /\
  configsArray w2 = configsArray w /\
  out w2 = out w ++
           [Log ("[" +:+ username +:+ "] Starting bot...");
            DoLogin h; StatusUpdate] ++
           stop_trace env username h.
Proof.
  intros h w1 w2 Hf Hb Hi. subst w2 w1 h. rewrite !step_http. cbn [serve].
  unfold completion, exec.
  pose proof (property_None_2 _ _ Hb Hi) as Hp.
  rewrite (post_stop_idle env username w Hp).
  rewrite (post_start_idle env username w c Hf Hp). cbn [fst snd].
  erewrite post_stop_running by (apply property_own, lookup_insert_eq). cbn.
  repeat split.
  - rewrite delete_insert_eq. now apply delete_id.
  - now rewrite <- app_assoc.
Qed.

(** X10.  An account that has just been added is removed again by
    [DELETE /api/delete-account]: the account list, in memory and as saved,
    is the list from before the addition. *)
Theorem delete_undoes_add (env : Env) (newAccount : Body.t) (w : World)
    (u p : string) :
  let w1 := step env w (Http (PostAddAccount newAccount)) in
  let w2 := step env w1 (Http (DeleteAccount u)) in
  Body.username newAccount = Some u ->
  Body.password newAccount = Some p ->
  truthy u = true -> truthy p = true ->
  u ∉ usernames (configsArray w) ->
  configsArray w2 = configsArray w /\
  last_saved (out w2) = Some (configsArray w) /\
  completion (delete_account env u) w1
    = Normal (Json 200 "Account deleted successfully").
Proof.
  intros w1 w2 Hu Hp Tu Tp Hnew. subst w2 w1. rewrite !step_http.
  cbn [serve]. unfold exec, completion.
  rewrite (post_add_account_new newAccount w u p Hu Hp Tu Tp Hnew).
  cbn [fst snd].
  assert (list_find (has_username u)
            (configsArray w ++ [with_defaults u p newAccount])
          = Some (length (configsArray w), with_defaults u p newAccount))
    as Hfind.
  { apply list_find_app_Some. right. split; [lia|]. split.
    - apply find_None in Hnew. unfold find in Hnew.
      now apply fmap_None in Hnew.
    - rewrite Nat.sub_diag. cbn. unfold has_username_dec.
      now rewrite decide_True. }
  erewrite delete_account_found by exact Hfind. cbn.
  assert (delete (length (configsArray w))
            (configsArray w ++ [with_defaults u p newAccount])
          = configsArray w) as Hdel
    by (rewrite delete_middle; apply app_nil_r).
  rewrite Hdel. repeat split.
  rewrite app_assoc. now rewrite last_saved_app.
Qed.

(** ** Events of a bot that is no longer registered *)

Lemma restart_state env (cfg : Config.t) (w : World) :
  let w1 := exec (stopBot env (Config.username cfg);; startBot env cfg) w in
  inherited (Config.username cfg) = false ->
  bots w1
    = <[Config.username cfg := length (heap w)]>
        (delete (Config.username cfg) (bots w)) /\
  heap w1 = heap w ++ [{| config := cfg; bot := buildBot env cfg |}] /\
  configsArray w1 = configsArray w.
Proof.
  intros w1 Hname. subst w1.
  destruct (stopBot_completes env (Config.username cfg) w)
    as (Hc & Hb & Hh & Hcf).
  unfold exec, completion, bind in *.
  destruct (stopBot env (Config.username cfg) w) as [[[]|e] ws];
    cbn -[startBot] in *; [|discriminate].
  assert (property (bots ws) (Config.username cfg) = None) as Hnone
    by (rewrite Hb; apply property_None_2;
        [apply lookup_delete_eq | exact Hname]).
  rewrite (startBot_fresh env cfg ws Hnone). cbn.
  now rewrite Hb, Hh, Hcf.
Qed.

(** X13.  The handlers of a bot act on the registry entry of its account,
    whichever bot is registered there.  After an account is stopped and
    started again, a [disconnected] event of the bot of before removes the
    entry of the new bot; the new bot is not logged off.  The name of the
    account is not a property of [Object.prototype], as is the name of every
    bot that was ever built ([built_not_inherited]). *)
Theorem old_bot_unregisters_new_bot (env : Env) (w : World)
    (cfg : Config.t) (h : handle) (c : Closure) (eresult : Z) (msg : string) :
  let username := Config.username cfg in
  let w1 := exec (stopBot env username;; startBot env cfg) w in
  let w2 := step env w1 (Emits h (disconnected eresult msg)) in
  heap w !! h = Some c ->
  Config.username (config c) = username ->
  inherited username = false ->
  bots w1 !! username = Some (length (heap w)) /\
  h <> length (heap w) /\
  bots w2 !! username = None /\
  since w1 w2 =
    [Log ("[" +:+ username +:+ "] Disconnected: " +:+ msg
          +:+ " (Result: " +:+ pretty eresult +:+ ")");
     StatusUpdate].
Proof.
  intros username w1 w2 Hh Hu Hname. subst w2 w1 username.
  destruct (restart_state env cfg w Hname) as (Hb1 & Hh1 & _).
  set (w1 := exec (stopBot env (Config.username cfg);; startBot env cfg) w)
    in *.
  assert (heap w1 !! h = Some c) as Hh'
    by (rewrite Hh1; now apply lookup_app_l_Some).
  assert (step env w1 (Emits h (disconnected eresult msg))
          = exec (on_disconnected h c eresult msg) w1) as ->.
  { unfold step, exec, react, dispatch, deref, bind. now rewrite Hh'. }
  split; [rewrite Hb1; apply lookup_insert_eq|].
  split; [apply lookup_lt_Some in Hh; lia|].
  unfold on_disconnected. rewrite Hu. plumbing. cbn.
  split; [apply lookup_delete_eq|].
  apply since_app. cbn. now rewrite <- app_assoc.
Qed.

(** ** Errors that fall in both classes *)

(** X16.  The two tests of the error handler are independent.  An error
    whose message contains "LoggedInElsewhere" and whose result code is
    [InvalidPassword] keeps the registry as it is, is logged as a login
    elsewhere, and still deletes the login key file of the bot. *)
Theorem elsewhere_and_invalid_password (env : Env) (w : World)
    (h : handle) (c : Closure) (err : Err.t) (pre post path : string) :
  let username := Config.username (config c) in
  let w' := step env w (Emits h (error err)) in
  heap w !! h = Some c ->
  Err.message err = Some (pre +:+ "LoggedInElsewhere" +:+ post) ->
  Err.eresult err = Some InvalidPassword ->
  Bot.loginKeyPath (bot c) = Some path ->
  truthy path = true ->
  bots w' = bots w /\
  since w w' =
    [Log ("[" +:+ username +:+
          "] Account logged in elsewhere, attempting to reconnect.");
     Unlink path] ++
    match unlink_rejects env path with
    | Some e =>
        [Log ("[" +:+ username +:+ "] Could not delete old login key: "
              +:+ show_message e)]
    | None => []
    end.
Proof.
  intros username w' Hh Hm He Hp Ht. subst w'.
  assert (isLoggedInElsewhere err = true) as Hcls
    by (apply isLoggedInElsewhere_true; eauto).
  rewrite (step_error env w h c err Hh), bots_on_error, Hcls.
  split; [reflexivity|].
  unfold on_error, unlink_settles.
  rewrite Hcls, (old_login_key_Some c err path He Hp Ht). fold username.
  plumbing. cbn. rewrite andb_false_r. cbn.
  destruct (unlink_rejects env path) as [e|]; cbn;
    apply since_app; cbn; now rewrite <- ?app_assoc.
Qed.

(** ** Steam Guard requests *)

(** X15.  The handler of [steamGuardRequested] only notifies: it sends
    [steamGuardRequest] with the name of the account and writes one log
    line.  It does not write [_waitingForGuard], so the event by itself does
    not change the answer to a code submission. *)
Theorem guard_request_only_notifies (env : Env) (w : World) (h : handle)
    (c : Closure) (username code : string) :
  let w' := step env w (Emits h steamGuardRequested) in
  heap w !! h = Some c ->
  bots w' = bots w /\
  heap w' = heap w /\
  configsArray w' = configsArray w /\
  out w' = out w ++
           [SteamGuardRequest (Config.username (config c));
            Log ("[" +:+ Config.username (config c)
                 +:+ "] Steam Guard code required.")] /\
  completion (post_submit_guard username code) w'
  = completion (post_submit_guard username code) w.
Proof.
  intros w' Hh. subst w'.
  assert (step env w (Emits h steamGuardRequested)
          = {| bots := bots w; configsArray := configsArray w;
               heap := heap w;
               out := out w ++
                      [SteamGuardRequest (Config.username (config c));
                       Log ("[" +:+ Config.username (config c)
                            +:+ "] Steam Guard code required.")] |}) as ->.
  { unfold on_steamGuardRequested. plumbing. rewrite Hh. cbn.
    now rewrite <- app_assoc. }
  cbn. repeat split.
  unfold post_submit_guard, submitSteamGuardCode. plumbing. cbn.
  destruct (property (bots w) username) as [[h'|]|]; [|reflexivity..].
  destruct (heap w !! h') as [c'|]; [|reflexivity].
  now destruct (Bot._waitingForGuard (bot c')).
Qed.

(** ** Edits and the next start *)

(** X17.  An edit takes effect at the next start.  After an account whose
    name is not a property of [Object.prototype] was edited, a start request
    for it is accepted and builds the new bot from the merged account; the
    bot objects built before keep the configuration they were built from. *)
Theorem edit_takes_effect_on_next_start (env : Env) (username : string)
    (updatedData : Body.t) (w : World) (i : nat) (original : Config.t) :
  let merged := merge original updatedData in
  let w1 := step env w (Http (PutEditAccount username updatedData)) in
  let w2 := step env w1 (Http (PostStart username)) in
  list_find (has_username username) (configsArray w) = Some (i, original) ->
  inherited username = false ->
  completion (post_start env username) w1
    = Normal (Json 200 "Start command received") /\
  bots w2 !! username = Some (length (heap w)) /\
  heap w2 = heap w ++ [{| config := merged; bot := buildBot env merged |}] /\
  (forall h c, heap w !! h = Some c -> heap w2 !! h = Some c).
Proof.
  intros merged w1 w2 Hfind Hown. subst w2 w1. rewrite !step_http.
  cbn [serve].
  unfold completion, exec.
  rewrite (put_edit_account_found env username updatedData w i original
             Hfind). cbn [fst snd].
  pose proof Hfind as (_ & Hname & _)%list_find_Some.
  unfold has_username in Hname.
  pose proof (find_insert_first username _ i original merged Hfind Hname)
    as Hf.
  assert (forall registry : gmap string handle,
            property (delete username registry) username = None) as Hgone
    by (intros registry; apply property_None_2;
        [apply lookup_delete_eq | exact Hown]).
  erewrite post_start_idle; [ | cbn; exact Hf | ].
  2: { cbn. apply Hgone. }
  cbn. repeat split.
  - apply lookup_insert_eq.
  - intros h c Hc. now apply lookup_app_l_Some.
Qed.

(** * The rest of the module on the scenarios *)

(** A run that loads two accounts, adds "carol" twice and deletes "bob". *)
Lemma names_distinct_after_requests :
  NoDup (usernames (configsArray (run quiet initial
    [Listening (Parsed two_accounts);
     Http (PostAddAccount (account "carol" ""));
     Http (PostAddAccount (account "carol" "again"));
     Http (DeleteAccount "bob")]))).
Proof.
  apply account_names_stay_distinct.
  repeat first [apply List.Forall_nil | apply List.Forall_cons];
    try exact I.
  change (NoDup (usernames two_accounts)).
  apply (bool_decide_eq_true_1 _). reflexivity.
Defined.

(** A message to alice's bot leaves the bot as it was built, apart from the
    peer it records. *)
Lemma alice_is_kept :
  bots_kept true (started quiet "alice" "hi")
    (step quiet (started quiet "alice" "hi")
       (Emits 0 (friendMessage "p1" "hello"))).
Proof.
  apply (proj2 (bots_are_kept quiet (started quiet "alice" "hi"))).
  intros h pending. discriminate.
Defined.

(** The disconnection of dave's bot changes the registry and is notified. *)
Lemma disconnection_of_dave_is_notified :
  In StatusUpdate
    (since (started quiet "dave" "")
       (step quiet (started quiet "dave" "")
          (Emits 0 (disconnected 3 "NoConnection")))).
Proof.
  apply (proj2 (registry_change_is_notified quiet (started quiet "dave" "")
                  (Emits 0 (disconnected 3 "NoConnection")))).
  vm_compute. discriminate.
Defined.

(** A stop request for an account that does not run changes nothing. *)
Lemma refused_stop_changes_nothing :
  exec (serve quiet (PostStop "erin")) (started quiet "dave" "")
  = started quiet "dave" "".
Proof.
  apply (rejections_change_nothing quiet (PostStop "erin")
           (started quiet "dave" "") (Json 400 "Bot not running")).
  - reflexivity.
  - cbn. lia.
Defined.

(** The [logOff] of bob's bot throws; the stop request completes. *)
Lemma stop_of_bob_completes :
  completion (logOff failing 0) (started failing "bob" "")
  = Throw (Err.Make (Some "closed") None "Error: closed") /\
  completion (react failing (Http (PostStop "bob"))) (started failing "bob" "")
  = Normal tt.
Proof.
  destruct (module_never_throws failing) as (Hthrow & _ & Hreact).
  split; [now apply Hthrow | apply Hreact].
Defined.

(** "erin" is started twice: the registry has one entry under her name. *)
Lemma start_of_erin_twice :
  let c := with_defaults "erin" "secret" (account "erin" "") in
  let w := added quiet "erin" "" in
  let w2 := exec (startBot quiet c) (exec (startBot quiet c) w) in
  sessions_of "erin" (bots w2) = 1 /\ length (heap w2) <= 1.
Proof.
  intros c w w2.
  destruct (startBot_twice quiet c w eq_refl)
    as (_ & _ & Hsessions & _ & _ & _ & _ & Hheap).
  split; [exact Hsessions | exact Hheap].
Defined.

(** "constructor" is added, then a start request is sent for it: the
    registry has no entry under the name. *)
Lemma constructor_never_runs :
  bots (run quiet initial
          [Http (PostAddAccount (account "constructor" ""));
           Http (PostStart "constructor")]) !! "constructor" = None.
Proof.
  destruct (prototype_names_never_run quiet
              [Http (PostAddAccount (account "constructor" ""));
               Http (PostStart "constructor")] "constructor" eq_refl)
    as (Hnone & _).
  exact Hnone.
Defined.

(** "erin" is in the list and does not run: the start request builds the
    object 0 from her account. *)
Lemma start_of_erin :
  completion (post_start quiet "erin") (added quiet "erin" "")
  = Normal (Json 200 "Start command received") /\
  bots (exec (post_start quiet "erin") (added quiet "erin" ""))
  = <["erin" := 0]> (bots (added quiet "erin" "")).
Proof.
  destruct (start_request_cases quiet "erin" (added quiet "erin" ""))
    as (_ & _ & Hidle).
  destruct (Hidle (with_defaults "erin" "secret" (account "erin" ""))
              eq_refl eq_refl eq_refl) as (Hanswer & _ & _ & Hbots & _).
  split; [exact Hanswer | exact Hbots].
Defined.

(** "bob" is started and stopped, and his [logOff] throws: the registry is
    empty again. *)
Lemma start_and_stop_of_bob :
  bots (run failing (added failing "bob" "")
          [Http (PostStart "bob"); Http (PostStop "bob")])
  = bots (added failing "bob" "").
Proof.
  destruct (stop_request_undoes_start failing "bob" (added failing "bob" "")
              (with_defaults "bob" "secret" (account "bob" ""))
              eq_refl eq_refl eq_refl) as (_ & _ & _ & Hbots & _).
  exact Hbots.
Defined.

(** "alice" is added to the empty list and is found. *)
Lemma addition_of_alice :
  find "alice" (configsArray (exec (post_add_account (account "alice" "hi"))
                                initial))
  = Some (with_defaults "alice" "secret" (account "alice" "hi")).
Proof.
  destruct (add_account_cases (account "alice" "hi") initial) as (_ & Hadd).
  destruct (Hadd "alice" "secret" eq_refl eq_refl eq_refl eq_refl)
    as (_ & Hnew).
  assert ("alice" ∉ usernames (configsArray initial)) as Hfree
    by (cbn; apply not_elem_of_nil).
  destruct (Hnew Hfree) as (_ & _ & Hfound & _).
  exact Hfound.
Defined.

(** "carol" is added to the two accounts and deleted again. *)
Lemma addition_and_deletion_of_carol :
  let w := run quiet initial [Listening (Parsed two_accounts)] in
  configsArray (run quiet w [Http (PostAddAccount (account "carol" ""));
                             Http (DeleteAccount "carol")])
  = configsArray w.
Proof.
  intros w.
  assert ("carol" ∉ usernames (configsArray w)) as Hfree
    by (apply (bool_decide_eq_true_1 _); reflexivity).
  destruct (delete_undoes_add quiet (account "carol" "") w "carol" "secret"
              eq_refl eq_refl eq_refl eq_refl Hfree) as (Hlist & _).
  exact Hlist.
Defined.

(** "alice" is deleted from the two accounts: "bob" is still found. *)
Lemma deletion_of_alice :
  let w := run quiet initial [Listening (Parsed two_accounts)] in
  let w' := exec (delete_account quiet "alice") w in
  find "alice" (configsArray w') = None /\
  find "bob" (configsArray w') = find "bob" (configsArray w).
Proof.
  intros w w'.
  destruct (delete_account_cases quiet "alice" w) as (_ & Hfound).
  assert (NoDup (usernames (configsArray w))) as Hnd
    by (apply (bool_decide_eq_true_1 _); reflexivity).
  destruct (Hfound 0 (Config.Make "alice" "secret" "" true [AppId 730] "hi"
                        true false) eq_refl)
    as (_ & _ & _ & _ & Hother & _ & _ & Hgone).
  split; [exact (Hgone Hnd)|].
  assert ("bob" <> "alice") as Hne by discriminate.
  exact (proj1 (Hother "bob" Hne)).
Defined.

(** An edit of "bob" that names "mallory" changes his reply text and keeps
    his name. *)
Lemma edit_of_the_reply_text :
  let w := run quiet initial [Listening (Parsed two_accounts)] in
  let w' := exec (put_edit_account quiet "bob" (account "mallory" "away")) w in
  usernames (configsArray w') = ["alice"; "bob"] /\
  Config.replyMessage <$> find "bob" (configsArray w') = Some "away".
Proof.
  intros w w'.
  destruct (edit_account_cases quiet "bob" (account "mallory" "away") w)
    as (_ & Hfound).
  destruct (Hfound 1 (Config.Make "bob" "hunter2" "" true [Title "idle"] ""
                        false false) eq_refl)
    as (_ & _ & Hnames & Hmerged & _).
  split; [exact Hnames|]. fold w' in Hmerged. now rewrite Hmerged.
Defined.

(** alice's first bot, the object 0, is disconnected after her restart: the
    entry of her second bot, the object 1, is removed. *)
Lemma disconnection_after_restart_of_alice :
  let c := with_defaults "alice" "secret" (account "alice" "hi") in
  let w1 := exec (stopBot quiet "alice";; startBot quiet c)
              (started quiet "alice" "hi") in
  bots w1 !! "alice" = Some 1 /\
  bots (step quiet w1 (Emits 0 (disconnected 3 "NoConnection"))) !! "alice"
  = None.
Proof.
  intros c w1.
  destruct (old_bot_unregisters_new_bot quiet (started quiet "alice" "hi") c 0
              (first_bot quiet "alice" "hi") 3 "NoConnection"
              eq_refl eq_refl eq_refl) as (Hnew & _ & Hgone & _).
  split; [exact Hnew | exact Hgone].
Defined.

(** The request of a code for bob's bot is announced; the bot has not set
    its flag and the code is refused as before. *)
Lemma guard_request_of_bob :
  completion (post_submit_guard "bob" "R2D2X")
    (step quiet (started quiet "bob" "") (Emits 0 steamGuardRequested))
  = completion (post_submit_guard "bob" "R2D2X") (started quiet "bob" "").
Proof.
  destruct (guard_request_only_notifies quiet (started quiet "bob" "") 0
              (first_bot quiet "bob" "") "bob" "R2D2X" eq_refl)
    as (_ & _ & _ & _ & Hsame).
  exact Hsame.
Defined.

(** carol's bot gets an error of both classes: she stays in the registry and
    her key file is deleted. *)
Lemma error_of_both_classes_for_carol :
  let w := started failing "carol" "" in
  let w' := step failing w (Emits 0 (error elsewhere_with_bad_password)) in
  bots w' = bots w /\ In (Unlink "carol.key") (since w w').
Proof.
  intros w w'.
  destruct (elsewhere_and_invalid_password failing w 0
              (first_bot failing "carol" "") elsewhere_with_bad_password
              "" "" "carol.key" eq_refl eq_refl eq_refl eq_refl eq_refl)
    as (Hbots & Htrace).
  split; [exact Hbots|]. fold w' in Htrace. rewrite Htrace. cbn. tauto.
Defined.

(** bob's reply text is edited while he runs; the start that follows builds
    the object 1 with the new text. *)
Lemma restart_of_bob_after_edit :
  let w := started quiet "bob" "" in
  let w2 := step quiet
              (step quiet w (Http (PutEditAccount "bob" (account "bob" "away"))))
              (Http (PostStart "bob")) in
  bots w2 !! "bob" = Some 1 /\
  Bot.autoMessage <$> (bot <$> heap w2 !! 1) = Some "away" /\
  Bot.autoMessage <$> (bot <$> heap w2 !! 0) = Some "".
Proof.
  intros w w2.
  destruct (edit_takes_effect_on_next_start quiet "bob" (account "bob" "away")
              w 0 (with_defaults "bob" "secret" (account "bob" "")) eq_refl
              eq_refl)
    as (_ & Hentry & Hheap & Hold).
  split; [exact Hentry|]. split.
  - fold w2 in Hheap. rewrite Hheap. reflexivity.
  - fold w2 in Hold. now rewrite (Hold 0 (first_bot quiet "bob" "") eq_refl).
Defined.
